(** * Beads Viewer: issue store, dependency resolver and identifier allocator

    A shallow embedding of the client-side core of the viewer:

    - the data model of [src/types/issue.ts];
    - the ready/blocked queries of [src/lib/jsonl.ts];
    - the zustand store ([useIssueStore]): optimistic [updateIssue] and
      [deleteIssue], and the WebSocket message handler;
    - the dependency editor of [IssueSidePanel.tsx] ([handleAddDependency]);
    - the sequential identifier generator ([generateNextIssueId]).

    JavaScript strings are modelled by [string]; each [ascii] stands for the
    UTF-16 code unit with the same code, so only code units below 256 occur.
    JavaScript arrays are lists, in array order. *)

From Stdlib Require Import ZArith List String Ascii Bool Arith Lia.
Import ListNotations.
Open Scope string_scope.

(** ** Data model ([src/types/issue.ts]) *)

Inductive Status := open | in_progress | blocked | closed.

Inductive IssueType := bug | feature | task | epic | chore.

Inductive DependencyType := blocks | related | parent_child | discovered_from.

Definition Status_eqb (a b : Status) : bool :=
  match a, b with
  | open, open | in_progress, in_progress | blocked, blocked | closed, closed => true
  | _, _ => false
  end.

Definition DependencyType_eqb (a b : DependencyType) : bool :=
  match a, b with
  | blocks, blocks | related, related
  | parent_child, parent_child | discovered_from, discovered_from => true
  | _, _ => false
  end.

Record Dependency := mkDependency {
  issue_id : string;
  depends_on_id : string;
  type : DependencyType;
  dep_created_at : string;
  created_by : string
}.

(** Optional properties ([description?: string]) are [option]s: [None] is a
    property that is absent or [undefined].  [dependents?: Issue[]] makes the
    type recursive. *)
#[warnings="-register-all"]
Inductive Issue := mkIssue {
  id : string;
  title : string;
  description : option string;
  design : option string;
  acceptance_criteria : option string;
  notes : option string;
  status : Status;
  priority : Z;
  issue_type : IssueType;
  assignee : option string;
  estimated_minutes : option Z;
  created_at : string;
  updated_at : string;
  closed_at : option string;
  external_ref : option string;
  dependencies : option (list Dependency);
  dependents : option (list Issue);
  labels : option (list string)
}.

(** [Partial<Issue>]: every property may be missing.  [None] is a missing
    key; [Some v] is a key that is present with value [v] (for an optional
    property [v] may itself be [None], the value [undefined]). *)
Record PartialIssue := mkPartial {
  p_id : option string;
  p_title : option string;
  p_description : option (option string);
  p_design : option (option string);
  p_acceptance_criteria : option (option string);
  p_notes : option (option string);
  p_status : option Status;
  p_priority : option Z;
  p_issue_type : option IssueType;
  p_assignee : option (option string);
  p_estimated_minutes : option (option Z);
  p_created_at : option string;
  p_updated_at : option string;
  p_closed_at : option (option string);
  p_external_ref : option (option string);
  p_dependencies : option (option (list Dependency));
  p_dependents : option (option (list Issue));
  p_labels : option (option (list string))
}.

(** The empty object [{}]. *)
Definition emptyPartial : PartialIssue :=
  mkPartial None None None None None None None None None
            None None None None None None None None None.

(** A full [Issue] used where a [Partial<Issue>] is expected: every key is
    present. *)
Definition asPartial (i : Issue) : PartialIssue :=
  mkPartial (Some (id i)) (Some (title i)) (Some (description i))
            (Some (design i)) (Some (acceptance_criteria i)) (Some (notes i))
            (Some (status i)) (Some (priority i)) (Some (issue_type i))
            (Some (assignee i)) (Some (estimated_minutes i))
            (Some (created_at i)) (Some (updated_at i)) (Some (closed_at i))
            (Some (external_ref i)) (Some (dependencies i))
            (Some (dependents i)) (Some (labels i)).

(** One property of an object spread [{ ...a, ...b }]: the later object wins
    on every key it has. *)
Definition spreadKey {A : Type} (later : option A) (earlier : A) : A :=
  match later with
  | Some v => v
  | None => earlier
  end.

(** [{ ...issue, ...updates }] *)
Definition spread (issue : Issue) (updates : PartialIssue) : Issue :=
  mkIssue
    (spreadKey (p_id updates) (id issue))
    (spreadKey (p_title updates) (title issue))
    (spreadKey (p_description updates) (description issue))
    (spreadKey (p_design updates) (design issue))
    (spreadKey (p_acceptance_criteria updates) (acceptance_criteria issue))
    (spreadKey (p_notes updates) (notes issue))
    (spreadKey (p_status updates) (status issue))
    (spreadKey (p_priority updates) (priority issue))
    (spreadKey (p_issue_type updates) (issue_type issue))
    (spreadKey (p_assignee updates) (assignee issue))
    (spreadKey (p_estimated_minutes updates) (estimated_minutes issue))
    (spreadKey (p_created_at updates) (created_at issue))
    (spreadKey (p_updated_at updates) (updated_at issue))
    (spreadKey (p_closed_at updates) (closed_at issue))
    (spreadKey (p_external_ref updates) (external_ref issue))
    (spreadKey (p_dependencies updates) (dependencies issue))
    (spreadKey (p_dependents updates) (dependents issue))
    (spreadKey (p_labels updates) (labels issue)).

(** [{ ...issue, updated_at: v }], [{ ...issue, status: v }] and
    [{ ...editedIssue, dependencies: v }]. *)
Definition withUpdatedAt (i : Issue) (v : string) : Issue :=
  mkIssue (id i) (title i) (description i) (design i) (acceptance_criteria i)
          (notes i) (status i) (priority i) (issue_type i) (assignee i)
          (estimated_minutes i) (created_at i) v (closed_at i)
          (external_ref i) (dependencies i) (dependents i) (labels i).

Definition withStatus (i : Issue) (v : Status) : Issue :=
  mkIssue (id i) (title i) (description i) (design i) (acceptance_criteria i)
          (notes i) v (priority i) (issue_type i) (assignee i)
          (estimated_minutes i) (created_at i) (updated_at i) (closed_at i)
          (external_ref i) (dependencies i) (dependents i) (labels i).

Definition withDependencies (e : PartialIssue) (v : list Dependency) : PartialIssue :=
  mkPartial (p_id e) (p_title e) (p_description e) (p_design e)
            (p_acceptance_criteria e) (p_notes e) (p_status e) (p_priority e)
            (p_issue_type e) (p_assignee e) (p_estimated_minutes e)
            (p_created_at e) (p_updated_at e) (p_closed_at e)
            (p_external_ref e) (Some (Some v)) (p_dependents e) (p_labels e).

(** [issues.find(i => i.id === key)] *)
Definition findById (issues : list Issue) (key : string) : option Issue :=
  find (fun i => String.eqb (id i) key) issues.

(** ** Ready and blocked queries ([src/lib/jsonl.ts]) *)

(** [issue.dependencies?.filter(dep => dep.type === 'blocks') || []] *)
Definition blockingDeps (issue : Issue) : list Dependency :=
  match dependencies issue with
  | Some deps => filter (fun dep => DependencyType_eqb (type dep) blocks) deps
  | None => []
  end.

(** [['open', 'in_progress', 'blocked'].includes(s)] *)
Definition isUnfinished (s : Status) : bool :=
  existsb (Status_eqb s) [open; in_progress; blocked].

(** The callback given to [blockingDeps.some] in both queries: the blocker is
    looked up by id, and a missing blocker ([undefined]) is falsy. *)
Definition stillBlocking (issues : list Issue) (dep : Dependency) : bool :=
  match findById issues (depends_on_id dep) with
  | Some blocker => isUnfinished (status blocker)
  | None => false
  end.

(** The callback given to [openIssues.filter] in [getReadyIssues]. *)
Definition isReady (issues : list Issue) (issue : Issue) : bool :=
  let blockingDeps := blockingDeps issue in
  if Nat.eqb (List.length blockingDeps) 0 then true
  else negb (existsb (stillBlocking issues) blockingDeps).

Definition getReadyIssues (issues : list Issue) : list Issue :=
  let openIssues := filter (fun i => Status_eqb (status i) open) issues in
  filter (isReady issues) openIssues.

(** The callback given to [issues.filter] in [getBlockedIssues]. *)
Definition isBlocked (issues : list Issue) (issue : Issue) : bool :=
  if Status_eqb (status issue) closed then false
  else existsb (stillBlocking issues) (blockingDeps issue).

Definition getBlockedIssues (issues : list Issue) : list Issue :=
  filter (isBlocked issues) issues.

(** ** The store ([useIssueStore])

    Of the store's state the operations below read and write [issues],
    [isLoading] and [error]; [filters] and [ws] are never touched by them and
    are left out. *)

Module Store.

Record IssueStore := mkStore {
  issues : list Issue;
  isLoading : bool;
  error : option string
}.

(** [set({ issues: v })] and [set({ error: v })]: zustand merges the given
    keys into the state. *)
Definition setIssues (st : IssueStore) (v : list Issue) : IssueStore :=
  mkStore v (isLoading st) (error st).

Definition setError (st : IssueStore) (v : option string) : IssueStore :=
  mkStore (issues st) (isLoading st) v.

(** What [await fetch(...)] followed by [await response.json()] can do:
    [fetch] rejects (the request never got an answer), or it resolves to a
    response with its [ok] flag, whose body parses to an issue or fails to
    parse.  Rejections carry an [Error] with a message. *)
Inductive Body :=
| JsonIssue (data : Issue)
| JsonFailure (message : string).

Inductive FetchOutcome :=
| FetchRejected (message : string)
| Response (ok : bool) (body : Body).

(** How a promise returned by a store action settles. *)
Inductive Settled (A : Type) :=
| Resolved (value : A)
| Rejected (message : string).
Arguments Resolved {A} value.
Arguments Rejected {A} message.

(** *** [updateIssue]

    The action runs in two synchronous pieces separated by the [await]s: the
    optimistic [set] (after the snapshot [prevIssues] is taken), and the
    continuation that runs when the request settles.  [now] is
    [new Date().toISOString()]. *)

Definition updateIssue_optimistic (id0 : string) (updates : PartialIssue)
    (now : string) (st : IssueStore) : IssueStore :=
  setIssues st
    (map (fun issue =>
            if String.eqb (id issue) id0
            then withUpdatedAt (spread issue updates) now
            else issue)
         (issues st)).

Definition updateIssue_settle (id0 : string) (prevIssues : list Issue)
    (outcome : FetchOutcome) (st : IssueStore) : IssueStore * Settled Issue :=
  match outcome with
  | FetchRejected message =>
      (* fetch threw: control goes straight to the catch block *)
      (setError st (Some message), Rejected message)
  | Response false _ =>
      (* Revert on failure, then throw; the catch block records the error *)
      let st := setIssues st prevIssues in
      (setError st (Some "Failed to update issue"),
       Rejected "Failed to update issue")
  | Response true (JsonFailure message) =>
      (setError st (Some message), Rejected message)
  | Response true (JsonIssue updatedIssue) =>
      (* Update with server response *)
      (setIssues st
         (map (fun issue =>
                 if String.eqb (id issue) id0 then updatedIssue else issue)
              (issues st)),
       Resolved updatedIssue)
  end.

(** The whole action.  [during] is whatever else runs on the store while the
    request is in flight (push events, other actions); [fun st => st] when
    nothing does. *)
Definition updateIssue (id0 : string) (updates : PartialIssue) (now : string)
    (during : IssueStore -> IssueStore) (outcome : FetchOutcome)
    (st : IssueStore) : IssueStore * Settled Issue :=
  let prevIssues := issues st in
  let st := updateIssue_optimistic id0 updates now st in
  updateIssue_settle id0 prevIssues outcome (during st).

(** *** [deleteIssue] (closes the issue) *)

Definition deleteIssue_optimistic (id0 : string) (st : IssueStore) : IssueStore :=
  setIssues st
    (map (fun issue =>
            if String.eqb (id issue) id0 then withStatus issue closed else issue)
         (issues st)).

Definition deleteIssue_settle (id0 : string) (prevIssues : list Issue)
    (outcome : FetchOutcome) (st : IssueStore) : IssueStore * Settled unit :=
  match outcome with
  | FetchRejected message =>
      (setError st (Some message), Rejected message)
  | Response false _ =>
      let st := setIssues st prevIssues in
      (setError st (Some "Failed to close issue"),
       Rejected "Failed to close issue")
  | Response true (JsonFailure message) =>
      (setError st (Some message), Rejected message)
  | Response true (JsonIssue closedIssue) =>
      (setIssues st
         (map (fun issue =>
                 if String.eqb (id issue) id0 then closedIssue else issue)
              (issues st)),
       Resolved tt)
  end.

Definition deleteIssue (id0 : string)
    (during : IssueStore -> IssueStore) (outcome : FetchOutcome)
    (st : IssueStore) : IssueStore * Settled unit :=
  let prevIssues := issues st in
  let st := deleteIssue_optimistic id0 st in
  deleteIssue_settle id0 prevIssues outcome (during st).

(** *** The WebSocket message handler ([ws.onmessage])

    A parsed message [{ type, data }].  ['issue:deleted'] reads only
    [message.data.id]; ['issues:refresh'] carries no data; any other [type]
    falls through the [switch]. *)
Inductive Message :=
| issue_created (data : Issue)
| issue_updated (data : Issue)
| issue_deleted (data_id : string)
| issues_refresh
| other_message.

(** The synchronous start of [fetchIssues]: [set({ isLoading: true, error: null })]. *)
Definition fetchIssues_start (st : IssueStore) : IssueStore :=
  mkStore (issues st) true None.

Definition onmessage (message : Message) (st : IssueStore) : IssueStore :=
  match message with
  | issue_created data =>
      (* Check if issue already exists (avoid duplicates from optimistic updates) *)
      let exists_ := existsb (fun issue => String.eqb (id issue) (id data)) (issues st) in
      if exists_ then st
      else setIssues st (data :: issues st)
  | issue_updated data =>
      setIssues st
        (map (fun issue => if String.eqb (id issue) (id data) then data else issue)
             (issues st))
  | issue_deleted data_id =>
      setIssues st
        (filter (fun issue => negb (String.eqb (id issue) data_id)) (issues st))
  | issues_refresh => fetchIssues_start st
  | other_message => st
  end.

(** *** [createIssue]

    Nothing is shown before the Backend answers; the record it returns is
    put in front unless a record with its id is already there. *)
Definition createIssue (outcome : FetchOutcome) (st : IssueStore)
    : IssueStore * Settled Issue :=
  match outcome with
  | FetchRejected message =>
      (setError st (Some message), Rejected message)
  | Response false _ =>
      (setError st (Some "Failed to create issue"),
       Rejected "Failed to create issue")
  | Response true (JsonFailure message) =>
      (setError st (Some message), Rejected message)
  | Response true (JsonIssue newIssue) =>
      (* Add the issue immediately (WebSocket will skip duplicate) *)
      let exists_ :=
        existsb (fun issue => String.eqb (id issue) (id newIssue)) (issues st) in
      (if exists_ then st else setIssues st (newIssue :: issues st),
       Resolved newIssue)
  end.

(** *** [updateStatus]: [updateIssue(id, { status })] *)

(** The object [{ status }]. *)
Definition statusOnly (s : Status) : PartialIssue :=
  mkPartial None None None None None None (Some s) None None
            None None None None None None None None None.

Definition updateStatus (id0 : string) (s : Status) (now : string)
    (during : IssueStore -> IssueStore) (outcome : FetchOutcome)
    (st : IssueStore) : IssueStore * Settled Issue :=
  updateIssue id0 (statusOnly s) now during outcome st.

(** *** [fetchIssues]

    The request for the whole collection settles like the others, with a
    list as body.  When it fails the action awaits [loadIssues()], the JSONL
    fallback; [fallback] is how that promise settles. *)
Inductive ListBody :=
| JsonIssues (data : list Issue)
| JsonListFailure (message : string).

Inductive ListOutcome :=
| ListRejected (message : string)
| ListResponse (ok : bool) (body : ListBody).

(** [set({ issues, isLoading: false })] *)
Definition setLoaded (st : IssueStore) (v : list Issue) : IssueStore :=
  mkStore v false (error st).

Definition fetchIssues_fallback (message : string)
    (fallback : Settled (list Issue)) (st : IssueStore) : IssueStore :=
  match fallback with
  | Resolved loaded => setLoaded st loaded
  | Rejected _ => mkStore (issues st) false (Some message)
  end.

Definition fetchIssues_settle (outcome : ListOutcome)
    (fallback : Settled (list Issue)) (st : IssueStore) : IssueStore :=
  match outcome with
  | ListRejected message => fetchIssues_fallback message fallback st
  | ListResponse false _ => fetchIssues_fallback "Failed to fetch issues" fallback st
  | ListResponse true (JsonListFailure message) =>
      fetchIssues_fallback message fallback st
  | ListResponse true (JsonIssues loaded) => setLoaded st loaded
  end.

Definition fetchIssues (during : IssueStore -> IssueStore)
    (outcome : ListOutcome) (fallback : Settled (list Issue))
    (st : IssueStore) : IssueStore :=
  fetchIssues_settle outcome fallback (during (fetchIssues_start st)).

End Store.

(** ** The dependency editor of the side panel ([IssueSidePanel.tsx]) *)

Module IssueSidePanel.

(** [String.prototype.trim]: the white space and line terminator code units
    below 256 are TAB, LF, VT, FF, CR, SP and NBSP. *)
Definition isWhiteSpace (c : ascii) : bool :=
  existsb (Nat.eqb (nat_of_ascii c)) [9; 10; 11; 12; 13; 32; 160]%nat.

Fixpoint trimStart (s : string) : string :=
  match s with
  | String c rest => if isWhiteSpace c then trimStart rest else s
  | EmptyString => EmptyString
  end.

Fixpoint trimEnd (s : string) : string :=
  match s with
  | String c rest =>
      match trimEnd rest with
      | EmptyString => if isWhiteSpace c then EmptyString else String c EmptyString
      | rest' => String c rest'
      end
  | EmptyString => EmptyString
  end.

Definition trim (s : string) : string := trimEnd (trimStart s).

(** The props and state of the component that the dependency editor and the
    save path read: the store's [issues], the props [issueId] and
    [createMode], and the [useState] cells. *)
Record Panel := mkPanel {
  issues : list Issue;
  issueId : option string;
  createMode : bool;
  editedIssue : option PartialIssue;
  newDependencyId : string;
  newDependencyType : DependencyType;
  error : option string
}.

(** [const issue = issueId ? issues.find(i => i.id === issueId) : null]
    (the empty string is falsy). *)
Definition issue (p : Panel) : option Issue :=
  match issueId p with
  | Some key => if String.eqb key "" then None else findById (issues p) key
  | None => None
  end.

(** [editedIssue.dependencies || []] *)
Definition existingDeps (editedIssue : PartialIssue) : list Dependency :=
  match p_dependencies editedIssue with
  | Some (Some deps) => deps
  | _ => []
  end.

Definition setError (p : Panel) (v : option string) : Panel :=
  mkPanel (issues p) (issueId p) (createMode p) (editedIssue p)
          (newDependencyId p) (newDependencyType p) v.

(** [setNewDependencyType(t)], the dependency type select. *)
Definition setNewDependencyType (p : Panel) (t : DependencyType) : Panel :=
  mkPanel (issues p) (issueId p) (createMode p) (editedIssue p)
          (newDependencyId p) t (error p).

(** The dependency list of the draft, as the panel shows it. *)
Definition draftDependencies (p : Panel) : list Dependency :=
  match editedIssue p with
  | Some edited => existingDeps edited
  | None => []
  end.

(** [handleAddDependency]; [now] is [new Date().toISOString()]. *)
Definition handleAddDependency (now : string) (p : Panel) : Panel :=
  let target := trim (newDependencyId p) in
  match editedIssue p, issue p with
  | Some edited, Some issue =>
      if String.eqb target "" then p
      else
        (* Check if dependency already exists *)
        let existingDeps := existingDeps edited in
        if existsb (fun d => String.eqb (depends_on_id d) target) existingDeps
        then setError p (Some "Dependency already exists")
        else
          (* Check if the target issue exists *)
          match findById (issues p) target with
          | None => setError p (Some ("Issue " ++ target ++ " not found"))
          | Some targetIssue =>
              let newDep :=
                mkDependency (id issue) target (newDependencyType p) now "system" in
              mkPanel (issues p) (issueId p) (createMode p)
                      (Some (withDependencies edited (existingDeps ++ [newDep])))
                      "" (newDependencyType p) None
          end
  | _, _ => p
  end.

(** The call [updateIssue(issue.id, editedIssue)] that [handleSave] makes on
    the store when the panel edits an existing issue: its two arguments, or
    [None] when [handleSave] returns or throws before making it (no draft, a
    blank title, create mode, no issue). *)
Definition handleSave_updateIssue (p : Panel) : option (string * PartialIssue) :=
  match editedIssue p with
  | None => None
  | Some edited =>
      match p_title edited with
      | Some t =>
          if String.eqb (trim t) "" then None
          else if createMode p then None
          else match issue p with
               | Some issue => Some (id issue, edited)
               | None => None
               end
      | None => None
      end
  end.


(** [handleRemoveDependency] *)
Definition handleRemoveDependency (dependsOnId : string) (p : Panel) : Panel :=
  match editedIssue p with
  | None => p
  | Some edited =>
      mkPanel (issues p) (issueId p) (createMode p)
              (Some (withDependencies edited
                       (filter (fun d => negb (String.eqb (depends_on_id d) dependsOnId))
                               (existingDeps edited))))
              (newDependencyId p) (newDependencyType p) (error p)
  end.

(** [i.dependencies?.some(dep => dep.depends_on_id === key)] *)
Definition dependsOn (key : string) (i : Issue) : bool :=
  match dependencies i with
  | Some deps => existsb (fun dep => String.eqb (depends_on_id dep) key) deps
  | None => false
  end.

(** The issues that depend on the panel's issue (empty in create mode; the
    component renders nothing when it has no issue). *)
Definition dependents (p : Panel) : list Issue :=
  if createMode p then []
  else match issue p with
       | Some issue => filter (dependsOn (id issue)) (issues p)
       | None => []
       end.

End IssueSidePanel.

(** ** Loading the JSONL fallback ([src/lib/jsonl.ts]) *)

Module Jsonl.

Definition LF : ascii := ascii_of_nat 10.

(** [content.split('\n')]: never empty; the empty string gives [[""]]. *)
Fixpoint split (s : string) : list string :=
  match s with
  | EmptyString => [EmptyString]
  | String c rest =>
      if Ascii.eqb c LF then EmptyString :: split rest
      else match split rest with
           | line :: lines => String c line :: lines
           | [] => [String c EmptyString]
           end
  end.

Section Parse.

(** [JSON.parse(line) as Issue]; [None] when it throws. *)
Variable JSON_parse : string -> option Issue.

(** [lines.map(line => JSON.parse(line))]: the first line that does not
    parse throws. *)
Fixpoint parseLines (lines : list string) : option (list Issue) :=
  match lines with
  | [] => Some []
  | line :: rest =>
      match JSON_parse line with
      | None => None
      | Some i =>
          match parseLines rest with
          | None => None
          | Some l => Some (i :: l)
          end
      end
  end.

(** [parseJSONL]; [None] when it throws. *)
Definition parseJSONL (content : string) : option (list Issue) :=
  let lines :=
    filter (fun line => negb (String.eqb (IssueSidePanel.trim line) ""))
           (split (IssueSidePanel.trim content)) in
  parseLines lines.

(** What fetching [/.beads/issues.jsonl] and reading its text can do. *)
Inductive TextBody :=
| Text (content : string)
| TextFailure (message : string).

Inductive TextOutcome :=
| TextRejected (message : string)
| TextResponse (ok : bool) (body : TextBody).

(** [loadIssues]: everything thrown inside is caught and logged. *)
Definition loadIssues (outcome : TextOutcome) : Store.Settled (list Issue) :=
  match outcome with
  | TextResponse true (Text content) =>
      match parseJSONL content with
      | Some loaded => Store.Resolved loaded
      | None => Store.Resolved []
      end
  | _ => Store.Resolved []
  end.

End Parse.

End Jsonl.

(** ** The kanban board ([KanbanBoard]) *)

Module KanbanBoard.

(** [Record<Status, Issue[]>] *)
Record Groups := mkGroups {
  g_open : list Issue;
  g_in_progress : list Issue;
  g_blocked : list Issue;
  g_closed : list Issue
}.

(** [groups[s]] *)
Definition column (groups : Groups) (s : Status) : list Issue :=
  match s with
  | open => g_open groups
  | in_progress => g_in_progress groups
  | blocked => g_blocked groups
  | closed => g_closed groups
  end.

(** [groups[issue.status].push(issue)] *)
Definition push (groups : Groups) (issue : Issue) : Groups :=
  match status issue with
  | open =>
      mkGroups (g_open groups ++ [issue]) (g_in_progress groups)
               (g_blocked groups) (g_closed groups)
  | in_progress =>
      mkGroups (g_open groups) (g_in_progress groups ++ [issue])
               (g_blocked groups) (g_closed groups)
  | blocked =>
      mkGroups (g_open groups) (g_in_progress groups)
               (g_blocked groups ++ [issue]) (g_closed groups)
  | closed =>
      mkGroups (g_open groups) (g_in_progress groups)
               (g_blocked groups) (g_closed groups ++ [issue])
  end.

Definition groupedIssues (issues : list Issue) : Groups :=
  fold_left push issues (mkGroups [] [] [] []).

(** What [handleDragEnd] reads of the event: [active.id] and [over?.id]
    (only the four columns are drop targets). *)
Record DragEndEvent := mkDragEnd {
  active_id : string;
  over_id : option Status
}.

(** [handleDragEnd]: the call [updateStatus(issueId, newStatus)] it makes,
    or [None] when it returns before (no drop target, issue not found,
    status unchanged). *)
Definition handleDragEnd (issues : list Issue) (event : DragEndEvent)
    : option (string * Status) :=
  match over_id event with
  | None => None
  | Some newStatus =>
      let issueId := active_id event in
      match findById issues issueId with
      | None => None
      | Some issue =>
          if Status_eqb (status issue) newStatus then None
          else Some (issueId, newStatus)
      end
  end.

End KanbanBoard.

(** ** The initial layout of the dependency graph ([DependencyGraph]) *)

Module DependencyGraph.

(** [{ x: (index % 5) * 250, y: Math.floor(index / 5) * 150 }] *)
Definition position (index : nat) : Z * Z :=
  (Z.of_nat (index mod 5) * 250, Z.of_nat (index / 5) * 150)%Z.

End DependencyGraph.

(** ** The identifier allocator ([generateNextIssueId]) *)

Module IdAllocator.

Local Open Scope Z_scope.

(** The JavaScript numbers that can occur here: non-negative integers that
    are IEEE 754 doubles, [Infinity] (a digit run too large for a double) and
    [NaN] (what [parseInt] returns when it finds no digit). *)
Inductive Number :=
| Finite (z : Z)
| Infinity
| NaN.

(** The double nearest to the integer [z >= 0], ties to even: integers below
    2^53 are doubles; a larger one keeps its 53 leading bits, rounded; from
    2^1024 on the result is [Infinity]. *)
Definition roundToDouble (z : Z) : Number :=
  if z <? 2 ^ 53 then Finite z
  else
    let e := Z.log2 z - 52 in
    let q := z / 2 ^ e in
    let r := z mod 2 ^ e in
    let half := 2 ^ (e - 1) in
    let q := if r <? half then q
             else if half <? r then q + 1
             else if Z.even q then q else q + 1 in
    if 2 ^ 1024 <=? q * 2 ^ e then Infinity else Finite (q * 2 ^ e).

(** [\d] *)
Definition isDigit (c : ascii) : bool :=
  (48 <=? nat_of_ascii c)%nat && (nat_of_ascii c <=? 57)%nat.

Fixpoint allDigits (s : string) : bool :=
  match s with
  | String c rest => isDigit c && allDigits rest
  | EmptyString => true
  end.

(** [id.match(/(\d+)$/)]: the search tries each start position from the
    left; at a position the pattern matches exactly when everything from
    there to the end of the string is a non-empty run of digits.  The result
    is the capture group [match[1]], or [None] for [null]. *)
Fixpoint matchTrailingDigits (s : string) : option string :=
  match s with
  | String c rest => if allDigits s then Some s else matchTrailingDigits rest
  | EmptyString => None
  end.

(** The integer written by the leading digits of [s], after [acc]. *)
Fixpoint digitsValue (acc : Z) (s : string) : Z :=
  match s with
  | String c rest =>
      if isDigit c
      then digitsValue (10 * acc + (Z.of_nat (nat_of_ascii c) - 48)) rest
      else acc
  | EmptyString => acc
  end.

(** [parseInt(s, 10)] on a string without sign or leading white space (it
    is only called on a run of digits): the leading digits are read exactly
    and the integer is converted to a number; no digit gives [NaN]. *)
Definition parseInt (s : string) : Number :=
  match s with
  | String c _ => if isDigit c then roundToDouble (digitsValue 0 s) else NaN
  | EmptyString => NaN
  end.

Definition isNaN (n : Number) : bool :=
  match n with
  | NaN => true
  | _ => false
  end.

(** [Math.max] of two numbers. *)
Definition max2 (a b : Number) : Number :=
  match a, b with
  | NaN, _ | _, NaN => NaN
  | Infinity, _ | _, Infinity => Infinity
  | Finite x, Finite y => Finite (Z.max x y)
  end.

(** [n + 1] *)
Definition plusOne (n : Number) : Number :=
  match n with
  | Finite z => roundToDouble (z + 1)
  | Infinity => Infinity
  | NaN => NaN
  end.

(** The decimal digits of [v >= 0], most significant first: the digits of
    [v / 10] (none when [v < 10]) followed by the digit [v mod 10].  The
    fuel, one more than the binary logarithm, is never exhausted. *)
Definition digitChar (d : Z) : ascii := ascii_of_nat (48 + Z.to_nat d).

Fixpoint decimalDigits (fuel : nat) (v : Z) : string :=
  match fuel with
  | O => EmptyString
  | S fuel =>
      (if v <? 10 then EmptyString else decimalDigits fuel (v / 10))
      ++ String (digitChar (v mod 10)) EmptyString
  end.

Definition decimal (v : Z) : string :=
  decimalDigits (S (Z.to_nat (Z.log2 v))) v.

Definition readsBackAs (v candidate : Z) : bool :=
  match roundToDouble candidate with
  | Finite w => w =? v
  | _ => false
  end.

(** Number-to-string conversion of a double [v] picks digits [s] and an
    exponent [e] with [s * 10^e] reading back as [v], with as few digits as
    possible and, among those, nearest to [v].  The search goes from the
    largest exponent down; at an exponent the only candidates are the two
    multiples of [10^e] around [v]. *)
Fixpoint shortestDigits (e : nat) (v : Z) : Z * nat :=
  match e with
  | O => (v, O)
  | S e' =>
      let p := 10 ^ Z.of_nat e in
      let lo := v / p in
      let hi := lo + 1 in
      let okLo := (0 <? lo) && readsBackAs v (lo * p) in
      let okHi := readsBackAs v (hi * p) in
      if okLo && okHi then
        if v - lo * p <? hi * p - v then (lo, e)
        else if hi * p - v <? v - lo * p then (hi, e)
        else if Z.even lo then (lo, e) else (hi, e)
      else if okLo then (lo, e)
      else if okHi then (hi, e)
      else shortestDigits e' v
  end.

Fixpoint zeros (n : nat) : string :=
  match n with
  | O => EmptyString
  | S n => String "0" (zeros n)
  end.

(** [String(n)] as a template literal computes it, for [n >= 0]: the
    shortest digits, padded with zeros while the number has at most 21
    digits, in exponent notation beyond. *)
Definition toString (n : Number) : string :=
  match n with
  | NaN => "NaN"
  | Infinity => "Infinity"
  | Finite v =>
      if v =? 0 then "0"
      else
        let '(s, e) := shortestDigits (String.length (decimal v)) v in
        let digits := decimal s in
        let n := (String.length digits + e)%nat in
        if (n <=? 21)%nat then digits ++ zeros e
        else
          match digits with
          | String d EmptyString => String d ("e+" ++ decimal (Z.of_nat n - 1))
          | String d rest => String d ("." ++ rest ++ "e+" ++ decimal (Z.of_nat n - 1))
          | EmptyString => EmptyString
          end
  end.

(** [generateNextIssueId].  The conditional
    [numericIds.length > 0 ? Math.max(...numericIds) : 0] is the outer
    [match].  [Math.max(...numericIds)] passes every element of the array as
    an argument of one call.  An engine accepts only so many arguments in a
    call ([maxArguments]; the number depends on the engine and on its stack
    size) and throws a [RangeError] when the array is longer: the function
    then returns nothing, which is [None]. *)
Definition generateNextIssueId (maxArguments : Z) (issues : list Issue) : option string :=
  let numericIds :=
    filter (fun n => negb (isNaN n))
      (map (fun issue =>
              match matchTrailingDigits (id issue) with
              | Some digits => parseInt digits
              | None => Finite 0
              end)
           issues) in
  let maxId :=
    match numericIds with
    | first :: rest =>
        if Z.of_nat (List.length numericIds) <=? maxArguments
        then Some (fold_left max2 rest first)
        else None
    | [] => Some (Finite 0)
    end in
  match maxId with
  | Some maxId => Some ("BD-" ++ toString (plusOne maxId))
  | None => None
  end.

End IdAllocator.

(** ** The update path of the server ([server/index.ts], [server/utils/bd-cli.ts]) *)

Module Server.

(** [BdUpdateOptions]; [priority] is an integer ([// 0-4, 0 is highest]). *)
Record BdUpdateOptions := mkUpdateOptions {
  id : string;
  title : option string;
  status : option Status;
  priority : option Z;
  assignee : option string;
  design : option string;
  acceptanceCriteria : option string;
  externalRef : option string;
  notes : option string
}.

(** The string values of [Status]. *)
Definition statusName (s : Status) : string :=
  match s with
  | open => "open"
  | in_progress => "in_progress"
  | blocked => "blocked"
  | closed => "closed"
  end.

(** [String(n)] for an integer [n]. *)
Definition numberText (n : Z) : string :=
  if (n <? 0)%Z then "-" ++ IdAllocator.toString (IdAllocator.Finite (- n))
  else IdAllocator.toString (IdAllocator.Finite n).

(** [if (value) { args.push(flag, value) }]: an absent or empty string is
    falsy. *)
Definition pushIfTruthy (flag : string) (value : option string) : list string :=
  match value with
  | Some v => if String.eqb v "" then [] else [flag; v]
  | None => []
  end.

(** The argument list that [updateIssue] of [bd-cli.ts] builds. *)
Definition updateIssue_args (options : BdUpdateOptions) : list string :=
  ["update"; id options]
  ++ pushIfTruthy "--title" (title options)
  ++ pushIfTruthy "--status" (option_map statusName (status options))
  ++ match priority options with
     | Some n => ["--priority"; numberText n]
     | None => []
     end
  ++ pushIfTruthy "--assignee" (assignee options)
  ++ pushIfTruthy "--design" (design options)
  ++ pushIfTruthy "--acceptance-criteria" (acceptanceCriteria options)
  ++ pushIfTruthy "--external-ref" (externalRef options)
  ++ pushIfTruthy "--notes" (notes options).

(** [execBd]: the arguments [bd] is spawned with. *)
Definition execBd_args (args : list string) : list string := args ++ ["--json"].

(** A property of the JSON request body: a key that is missing, or whose
    value was [undefined] when the client serialised it, reads as
    [undefined]. *)
Definition bodyKey {A : Type} (key : option (option A)) : option A :=
  match key with
  | Some v => v
  | None => None
  end.

(** The options that the handler of [PATCH /api/issues/:id] builds from the
    route parameter and the request body. *)
Definition patchOptions (id0 : string) (body : PartialIssue) : BdUpdateOptions :=
  mkUpdateOptions id0 (p_title body) (p_status body) (p_priority body)
                  (bodyKey (p_assignee body)) (bodyKey (p_design body))
                  (bodyKey (p_acceptance_criteria body))
                  (bodyKey (p_external_ref body)) (bodyKey (p_notes body)).

(** The [bd] command that a [PATCH] request runs. *)
Definition patchCommand (id0 : string) (body : PartialIssue) : list string :=
  execBd_args (updateIssue_args (patchOptions id0 body)).

End Server.

(** ** Vocabulary of the statements *)

(** [dep] points to [blocker] in the collection: looking up its target id,
    as both queries do, finds [blocker]. *)
Definition pointsTo (issues : list Issue) (dep : Dependency) (blocker : Issue) : Prop :=
  findById issues (depends_on_id dep) = Some blocker.

(** [dep] is dangling: its target id is the id of no issue in the collection. *)
Definition dangling (issues : list Issue) (dep : Dependency) : Prop :=
  forall j, In j issues -> id j <> depends_on_id dep.

(** [d] is one of the issue's dependencies of type [blocks]. *)
Definition blocksDependency (i : Issue) (d : Dependency) : Prop :=
  exists deps, dependencies i = Some deps /\ In d deps /\ type d = blocks.





(** Test data in the shape of the fixtures of [IssueSidePanel.test.tsx]. *)
Definition fixture (id0 : string) (st : Status) (deps : option (list Dependency)) : Issue :=
  mkIssue id0 "Test Issue" None None None None st 2 task None None
          "2025-01-01T00:00:00Z" "2025-01-01T00:00:00Z" None None deps None None.

Definition edge (from to : string) (t : DependencyType) : Dependency :=
  mkDependency from to t "2025-01-01T00:00:00Z" "user".



(** The three issues of the panel tests: [test-2] blocks on [test-1], all
    are open. *)
Definition test1 : Issue := fixture "test-1" open None.
Definition test2 : Issue :=
  fixture "test-2" open (Some [edge "test-2" "test-1" blocks]).
Definition test3 : Issue := fixture "test-3" open None.

Definition mockIssues : list Issue := [test1; test2; test3].

(** An open issue with a dangling [blocks] edge and a [related] edge to the
    open issue [test-1]. *)
Definition orphanedWithRelated : Issue :=
  fixture "B" open (Some [edge "B" "ghost" blocks; edge "B" "test-1" related]).

(** An open issue that blocks on [test-1] and is [related] to the open issue
    [test-3]. *)
Definition test4 : Issue :=
  fixture "test-4" open
          (Some [edge "test-4" "test-1" blocks; edge "test-4" "test-3" related]).

(** The number of records of a collection that carry the id [key]. *)
Definition countId (key : string) (issues : list Issue) : nat :=
  List.length (filter (fun i => String.eqb (id i) key) issues).

(** The store operation [upsert] in the specification's words: insert if the
    id is unknown, else overwrite in place. *)
Definition upsert (data : Issue) (issues : list Issue) : list Issue :=
  if existsb (fun i => String.eqb (id i) (id data)) issues
  then map (fun i => if String.eqb (id i) (id data) then data else i) issues
  else data :: issues.

(** A store holding [test-1], and the same issue as another client renamed it. *)
Definition loadedStore : Store.IssueStore := Store.mkStore [test1] false None.

Definition renamed : PartialIssue :=
  mkPartial None (Some "Renamed") None None None None None None None
            None None None None None None None None None.

Definition test1Pushed : Issue :=
  mkIssue "test-1" "Renamed elsewhere" None None None None in_progress 1 task
          None None "2025-01-01T00:00:00Z" "2025-02-02T00:00:00Z" None None
          None None None.

(** The dependency graph restricted to [blocks] edges: an edge goes from an
    issue of the collection to the target of one of its [blocks]
    dependencies. *)
Definition blocksEdge (issues : list Issue) (a b : string) : Prop :=
  exists i d, In i issues /\ id i = a /\ In d (blockingDeps i) /\ depends_on_id d = b.

(** [b] is reachable from [a] by following [blocks] edges. *)
Inductive reachable (issues : list Issue) : string -> string -> Prop :=
| reachable_here (a : string) : reachable issues a a
| reachable_step (a b c : string) :
    blocksEdge issues a b -> reachable issues b c -> reachable issues a c.

(** The side panel opened on [test-1] in edit mode, over the mock
    collection; the user has typed [typed] in the dependency input and
    selected the type [t]. *)
Definition panelOnTest1 (typed : string) (t : DependencyType) : IssueSidePanel.Panel :=
  IssueSidePanel.mkPanel mockIssues (Some "test-1") false
                         (Some (asPartial test1)) typed t None.

(** The panel opened on [test-2], whose draft already depends on [test-1]. *)
Definition panelOnTest2 (typed : string) (t : DependencyType) : IssueSidePanel.Panel :=
  IssueSidePanel.mkPanel mockIssues (Some "test-2") false
                         (Some (asPartial test2)) typed t None.

(** A record of [test-1] that carries an edge naming another issue as its
    source ([test-2] depends on [test-3]), the collection that holds it, and
    the panel opened on it. *)
Definition misfiled : Issue :=
  fixture "test-1" open (Some [edge "test-2" "test-3" blocks]).

Definition misfiledIssues : list Issue := [misfiled; test2; test3].

Definition panelWithForeignEdge (typed : string) (t : DependencyType)
  : IssueSidePanel.Panel :=
  IssueSidePanel.mkPanel misfiledIssues (Some "test-1") false
                         (Some (asPartial misfiled)) typed t None.

(** The validation of a new edge read literally, for a panel with the draft
    [edited] of the issue [iss]: the edge is appended exactly when no edge
    with the same (issue_id, depends_on_id) pair is on the draft and the
    target is the id of an issue of the collection; when either check fails
    an error is reported and the draft is unchanged. *)
Definition validatesAsStated (now : string) (p : IssueSidePanel.Panel)
    (edited : PartialIssue) (iss : Issue) : Prop :=
  let target := IssueSidePanel.trim (IssueSidePanel.newDependencyId p) in
  let newDep :=
    mkDependency (id iss) target (IssueSidePanel.newDependencyType p) now "system" in
  let duplicate :=
    exists d, In d (IssueSidePanel.existingDeps edited) /\
              issue_id d = id iss /\ depends_on_id d = target in
  let known := exists j, In j (IssueSidePanel.issues p) /\ id j = target in
  let p' := IssueSidePanel.handleAddDependency now p in
  (IssueSidePanel.draftDependencies p'
   = (IssueSidePanel.existingDeps edited ++ [newDep])%list <->
   ~ duplicate /\ known)
  /\ (duplicate \/ ~ known ->
      (exists message, IssueSidePanel.error p' = Some message) /\
      IssueSidePanel.editedIssue p' = Some edited).

(** The allocation rule in the specification's words.  The trailing
    contiguous run of decimal digits of an id is its longest suffix made of
    digits; its numeric value is read positionally; an id without such a run
    gives no candidate; the maximum is 0 when there is no candidate. *)
Fixpoint takeWhile {A : Type} (f : A -> bool) (l : list A) : list A :=
  match l with
  | x :: rest => if f x then x :: takeWhile f rest else []
  | [] => []
  end.

Definition trailingDigitRun (s : string) : string :=
  string_of_list_ascii
    (rev (takeWhile IdAllocator.isDigit (rev (list_ascii_of_string s)))).

Definition numericValue (run : string) : Z :=
  fold_left (fun acc c => 10 * acc + (Z.of_nat (nat_of_ascii c) - 48))%Z
            (list_ascii_of_string run) 0%Z.

Definition candidate (i : Issue) : option Z :=
  let run := trailingDigitRun (id i) in
  if String.eqb run "" then None else Some (numericValue run).

Definition maxCandidate (issues : list Issue) : Z :=
  fold_right (fun i m => match candidate i with
                         | Some v => Z.max v m
                         | None => m
                         end) 0%Z issues.

Definition candidateOrZero (i : Issue) : Z :=
  match candidate i with
  | Some v => v
  | None => 0%Z
  end.

(** Collections carrying given ids, as in the test suite of the generator. *)
Definition withIds (ids : list string) : list Issue :=
  map (fun id0 => fixture id0 open None) ids.

(** A string made of white space only. *)
Definition blank (s : string) : Prop :=
  forallb IssueSidePanel.isWhiteSpace (list_ascii_of_string s) = true.

(** The [bd] command that saving the panel leads to: [handleSave] calls
    [updateIssue(issue.id, editedIssue)], which sends the draft as the body
    of [PATCH /api/issues/<id>]; [None] when [handleSave] makes no such
    call.  The id is taken to need no escaping in the URL. *)
Definition savedCommand (p : IssueSidePanel.Panel) : option (list string) :=
  match IssueSidePanel.handleSave_updateIssue p with
  | Some (id0, edited) => Some (Server.patchCommand id0 edited)
  | None => None
  end.

(** * Properties *)

(** ** Lookups and statuses *)

Lemma Status_eqb_eq (a b : Status) : Status_eqb a b = true <-> a = b.
Proof. destruct a, b; simpl; split; congruence. Qed.

Lemma DependencyType_eqb_eq (a b : DependencyType) :
  DependencyType_eqb a b = true <-> a = b.
Proof. destruct a, b; simpl; split; congruence. Qed.

Lemma isUnfinished_true (s : Status) :
  isUnfinished s = true <-> In s [open; in_progress; blocked].
Proof. destruct s; cbv; intuition (auto; discriminate). Qed.


Lemma findById_Some (issues : list Issue) (key : string) (b : Issue) :
  findById issues key = Some b -> In b issues /\ id b = key.
Proof.
  unfold findById. intros H. apply find_some in H.
  destruct H as [Hin Heq]. now apply String.eqb_eq in Heq.
Qed.

Lemma findById_None (issues : list Issue) (key : string) :
  findById issues key = None <-> forall j, In j issues -> id j <> key.
Proof.
  unfold findById. split.
  - intros H j Hj Hid. apply (find_none _ _ H) in Hj.
    apply String.eqb_neq in Hj. contradiction.
  - intros H. destruct (find _ issues) as [b|] eqn:E; [|reflexivity].
    apply find_some in E. destruct E as [Hin Heq].
    apply String.eqb_eq in Heq. now apply H in Hin.
Qed.

Lemma dangling_findById (issues : list Issue) (dep : Dependency) :
  dangling issues dep <-> findById issues (depends_on_id dep) = None.
Proof. unfold dangling. symmetry. apply findById_None. Qed.

Lemma stillBlocking_true (issues : list Issue) (dep : Dependency) :
  stillBlocking issues dep = true <->
  exists b, pointsTo issues dep b /\ In (status b) [open; in_progress; blocked].
Proof.
  unfold stillBlocking, pointsTo.
  destruct (findById issues (depends_on_id dep)) as [b|].
  - rewrite isUnfinished_true. split.
    + intros H. now exists b.
    + intros [b' [E H]]. now inversion E; subst.
  - split; [discriminate|]. now intros [b' [E _]].
Qed.


Lemma stillBlocking_dangling (issues : list Issue) (dep : Dependency) :
  dangling issues dep -> stillBlocking issues dep = false.
Proof.
  intros H. apply dangling_findById in H. unfold stillBlocking. now rewrite H.
Qed.

Lemma existsb_false {A : Type} (f : A -> bool) (l : list A) :
  existsb f l = false <-> forall x, In x l -> f x = false.
Proof.
  induction l as [|a l IH]; simpl.
  - split; [contradiction|reflexivity].
  - rewrite orb_false_iff, IH. split.
    + intros [Ha Hl] x [<-|Hx]; auto.
    + intros H. split; auto.
Qed.



(** The length test in [isReady] is a shortcut: the predicate is "no
    blocking dependency is still blocking". *)
Lemma isReady_existsb (issues : list Issue) (i : Issue) :
  isReady issues i = negb (existsb (stillBlocking issues) (blockingDeps i)).
Proof.
  unfold isReady. destruct (blockingDeps i); reflexivity.
Qed.

(** The filter of both queries keeps exactly the dependencies of type
    [blocks]. *)
Lemma In_blockingDeps (i : Issue) (d : Dependency) :
  In d (blockingDeps i) <-> blocksDependency i d.
Proof.
  unfold blockingDeps, blocksDependency.
  destruct (dependencies i) as [deps|].
  - rewrite filter_In, DependencyType_eqb_eq. split.
    + intros [Hin Ht]. now exists deps.
    + intros [deps' [E [Hin Ht]]]. inversion E; subst. now split.
  - split; [contradiction|]. intros [deps' [E _]]. discriminate E.
Qed.



Lemma In_getReadyIssues (issues : list Issue) (i : Issue) :
  In i (getReadyIssues issues) <->
  In i issues /\ status i = open /\ isReady issues i = true.
Proof.
  unfold getReadyIssues. rewrite !filter_In, Status_eqb_eq. tauto.
Qed.

Lemma In_getBlockedIssues (issues : list Issue) (i : Issue) :
  In i (getBlockedIssues issues) <->
  In i issues /\ status i <> closed /\
  existsb (stillBlocking issues) (blockingDeps i) = true.
Proof.
  unfold getBlockedIssues, isBlocked. rewrite filter_In.
  destruct (Status_eqb (status i) closed) eqn:E.
  - apply Status_eqb_eq in E. split.
    + intros [_ H]. discriminate H.
    + intros [_ [H _]]. contradiction.
  - assert (status i <> closed).
    { intros H. apply Status_eqb_eq in H. congruence. }
    tauto.
Qed.

(** With unique ids, "the lookup finds [b]" and "[b] is the issue of the
    collection with that id" are the same thing. *)
Lemma pointsTo_unique_ids (issues : list Issue) (d : Dependency) (b : Issue) :
  NoDup (map id issues) ->
  (pointsTo issues d b <-> In b issues /\ id b = depends_on_id d).
Proof.
  intros Hnd. split; [apply findById_Some|].
  unfold pointsTo, findById. intros [Hin Hid].
  induction issues as [|a l IH]; simpl in *; [contradiction|].
  inversion Hnd as [|x xs Hnotin Hnd']; subst.
  destruct (String.eqb (id a) (depends_on_id d)) eqn:E.
  - apply String.eqb_eq in E. destruct Hin as [->|Hin]; [reflexivity|].
    exfalso. apply Hnotin. rewrite E, <- Hid. now apply in_map.
  - destruct Hin as [->|Hin].
    + apply String.eqb_neq in E. contradiction.
    + now apply IH.
Qed.

(** ** Non-[blocks] dependencies do not matter *)






(** ** Ready work *)



(** ** Blocked issues *)








(** ** Dangling edges *)

(** C10: a [blocks] dependency whose target id matches no issue of the
    collection never counts as blocking.  An open issue all of whose
    dependencies of type [blocks] are dangling is in the ready set, and an
    issue all of whose dependencies of type [blocks] are dangling is not in
    the blocked set; its dependencies of other types may point anywhere. *)
Theorem dangling_edges_never_block (issues : list Issue) (i : Issue) :
  (forall d deps, dependencies i = Some deps -> In d deps -> type d = blocks ->
                  dangling issues d) ->
  (forall d deps, dependencies i = Some deps -> In d deps -> type d = blocks ->
                  stillBlocking issues d = false)
  /\ (In i issues -> status i = open -> In i (getReadyIssues issues))
  /\ ~ In i (getBlockedIssues issues).
Proof.
  intros Hd.
  assert (Hnone : forall d, In d (blockingDeps i) -> stillBlocking issues d = false).
  { intros d Hin. apply stillBlocking_dangling.
    apply In_blockingDeps in Hin. destruct Hin as [deps [E [Hin Ht]]].
    now apply (Hd d deps). }
  split.
  { intros d deps E Hin Ht. apply Hnone, In_blockingDeps. now exists deps. }
  split.
  - intros Hin Hopen. apply In_getReadyIssues.
    repeat split; try assumption.
    rewrite isReady_existsb. apply negb_true_iff. now apply existsb_false.
  - intros Hb. apply In_getBlockedIssues in Hb.
    destruct Hb as [_ [_ Hex]].
    apply existsb_false in Hnone. congruence.
Qed.

(** An issue whose [blocks] edge is dangling and whose [related] edge
    points to the open issue [test-1]: ready, and not blocked. *)
Lemma dangling_edges_never_block_witness :
  (forall d deps, dependencies orphanedWithRelated = Some deps -> In d deps ->
                  type d = blocks -> dangling [test1; orphanedWithRelated] d)
  /\ (exists d b, In d [edge "B" "ghost" blocks; edge "B" "test-1" related] /\
                  pointsTo [test1; orphanedWithRelated] d b /\ status b = open)
  /\ In orphanedWithRelated (getReadyIssues [test1; orphanedWithRelated])
  /\ ~ In orphanedWithRelated (getBlockedIssues [test1; orphanedWithRelated]).
Proof.
  assert (H : forall d deps, dependencies orphanedWithRelated = Some deps ->
                             In d deps -> type d = blocks ->
                             dangling [test1; orphanedWithRelated] d).
  { intros d deps E Hd Ht j Hj. injection E as <-.
    destruct Hd as [<-|[<-|[]]]; [|discriminate Ht].
    destruct Hj as [<-|[<-|[]]]; discriminate. }
  split; [exact H|]. split.
  { exists (edge "B" "test-1" related), test1.
    split; [right; now left|]. split; reflexivity. }
  destruct (dangling_edges_never_block [test1; orphanedWithRelated]
              orphanedWithRelated H) as [_ [Hready Hblocked]].
  split; [|exact Hblocked].
  apply Hready; [right; now left|reflexivity].
Defined.

(** ** The store: optimistic mutations *)

Section Rollback.

Variables (id0 : string) (updates : PartialIssue) (now : string).
Variable during : Store.IssueStore -> Store.IssueStore.
Variable st : Store.IssueStore.

(** The branch that reverts: a response whose [ok] flag is false puts the
    snapshot back, whatever happened to the store in between. *)
Lemma updateIssue_not_ok_restores (body : Store.Body) :
  Store.issues (fst (Store.updateIssue id0 updates now during
                       (Store.Response false body) st))
  = Store.issues st.
Proof. reflexivity. Qed.

Lemma deleteIssue_not_ok_restores (body : Store.Body) :
  Store.issues (fst (Store.deleteIssue id0 during (Store.Response false body) st))
  = Store.issues st.
Proof. reflexivity. Qed.

(** The branch that does not: when [fetch] itself rejects, the catch block
    records the error and rethrows, and the collection stays as the
    optimistic update (and whatever ran meanwhile) left it. *)
Lemma updateIssue_fetch_rejected_keeps (message : string) :
  Store.updateIssue id0 updates now during (Store.FetchRejected message) st
  = (Store.setError (during (Store.updateIssue_optimistic id0 updates now st))
       (Some message),
     Store.Rejected message).
Proof. reflexivity. Qed.

Lemma deleteIssue_fetch_rejected_keeps (message : string) :
  Store.deleteIssue id0 during (Store.FetchRejected message) st
  = (Store.setError (during (Store.deleteIssue_optimistic id0 st)) (Some message),
     Store.Rejected message).
Proof. reflexivity. Qed.

End Rollback.

(** C1 does not hold on the code when the request fails at the network
    level.  Renaming [test-1], or closing it, with [fetch] rejecting: the
    promise rejects and the error is recorded, but the collection keeps the
    optimistic change instead of going back to the snapshot. *)
Theorem mutation_network_failure_not_rolled_back :
  let now := "2025-03-03T00:00:00.000Z" in
  let failure := Store.FetchRejected "Failed to fetch" in
  let nothing := fun st : Store.IssueStore => st in
  let updated := Store.updateIssue "test-1" renamed now nothing failure loadedStore in
  let closing := Store.deleteIssue "test-1" nothing failure loadedStore in
  snd updated = Store.Rejected "Failed to fetch"
  /\ Store.error (fst updated) = Some "Failed to fetch"
  /\ map title (Store.issues (fst updated)) = ["Renamed"]
  /\ Store.issues (fst updated) <> Store.issues loadedStore
  /\ snd closing = Store.Rejected "Failed to fetch"
  /\ map status (Store.issues (fst closing)) = [closed]
  /\ Store.issues (fst closing) <> Store.issues loadedStore.
Proof.
  cbv zeta. repeat split; try reflexivity.
  - intros H. apply (f_equal (map title)) in H. discriminate H.
  - intros H. apply (f_equal (map status)) in H. discriminate H.
Qed.

(** ** The store: push events *)

Lemma map_replace_idempotent (data : Issue) (l : list Issue) :
  let f := fun i : Issue => if String.eqb (id i) (id data) then data else i in
  map f (map f l) = map f l.
Proof.
  intros f. rewrite map_map. apply map_ext. intros i. unfold f.
  destruct (String.eqb (id i) (id data)) eqn:E.
  - now rewrite String.eqb_refl.
  - now rewrite E.
Qed.

(** C8: handling the same [issue:updated] event twice in a row leaves the
    store as handling it once does.  The handler replaces each record whose
    id is the event's by the event's record and leaves the others alone. *)
Theorem issue_updated_idempotent (st : Store.IssueStore) (data : Issue) :
  let handle := Store.onmessage (Store.issue_updated data) in
  handle (handle st) = handle st
  /\ Forall2 (fun before after =>
                (id before = id data -> after = data) /\
                (id before <> id data -> after = before))
             (Store.issues st) (Store.issues (handle st)).
Proof.
  cbv zeta. split.
  - unfold Store.onmessage, Store.setIssues. simpl.
    now rewrite map_replace_idempotent.
  - simpl. induction (Store.issues st) as [|a l IH]; simpl; constructor.
    + destruct (String.eqb (id a) (id data)) eqn:E.
      * apply String.eqb_eq in E. split; [reflexivity|contradiction].
      * apply String.eqb_neq in E. split; [contradiction|reflexivity].
    + exact IH.
Qed.

Lemma existsb_id_true (key : string) (l : list Issue) :
  existsb (fun i => String.eqb (id i) key) l = true <->
  exists j, In j l /\ id j = key.
Proof.
  rewrite existsb_exists. split; intros [j [Hin H]]; exists j; split; auto.
  - now apply String.eqb_eq.
  - now apply String.eqb_eq.
Qed.

Lemma countId_pos (key : string) (l : list Issue) :
  existsb (fun i => String.eqb (id i) key) l = true -> (1 <= countId key l)%nat.
Proof.
  unfold countId. induction l as [|a l IH]; simpl; [discriminate|].
  destruct (String.eqb (id a) key); simpl; [lia|exact IH].
Qed.

Lemma countId_zero (key : string) (l : list Issue) :
  existsb (fun i => String.eqb (id i) key) l = false -> countId key l = 0%nat.
Proof.
  unfold countId. induction l as [|a l IH]; simpl; [reflexivity|].
  destruct (String.eqb (id a) key); simpl; [discriminate|exact IH].
Qed.

(** C9, as stated, fails when the id is already present: the pushed record
    does not overwrite the existing one, it is dropped. *)
Lemma issue_created_present_counterexample :
  let after := Store.issues (Store.onmessage (Store.issue_created test1Pushed) loadedStore) in
  id test1Pushed = id test1
  /\ after = [test1]
  /\ upsert test1Pushed (Store.issues loadedStore) = [test1Pushed]
  /\ after <> upsert test1Pushed (Store.issues loadedStore).
Proof.
  cbv zeta. repeat split. intros H. discriminate H.
Qed.

(** C9, amended: on an [issue:created] event whose id is unknown the record
    is inserted, at the front; when a record with that id is already present
    the event is ignored and the store is left as it is (the existing record
    is kept, not overwritten).  If the collection held at most one record
    with that id before, it holds exactly one afterwards. *)
Theorem issue_created_inserts_or_ignores (st : Store.IssueStore) (data : Issue) :
  let st' := Store.onmessage (Store.issue_created data) st in
  ((forall j, In j (Store.issues st) -> id j <> id data) ->
   Store.issues st' = data :: Store.issues st)
  /\ ((exists j, In j (Store.issues st) /\ id j = id data) -> st' = st)
  /\ ((countId (id data) (Store.issues st) <= 1)%nat ->
      countId (id data) (Store.issues st') = 1%nat).
Proof.
  cbv zeta. unfold Store.onmessage.
  destruct (existsb _ (Store.issues st)) eqn:E.
  - split; [|split].
    + intros H. apply existsb_id_true in E. destruct E as [j [Hin Hid]].
      now apply H in Hin.
    + reflexivity.
    + intros H. apply countId_pos in E. lia.
  - split; [|split].
    + reflexivity.
    + intros H. apply existsb_id_true in H. congruence.
    + intros _. simpl. unfold countId. simpl. rewrite String.eqb_refl. simpl.
      f_equal. now apply countId_zero.
Qed.

(** A push for [test-1], already in the store, and one for [test-2], new. *)
Lemma issue_created_inserts_or_ignores_witness :
  Store.onmessage (Store.issue_created test1Pushed) loadedStore = loadedStore
  /\ countId "test-1"
       (Store.issues (Store.onmessage (Store.issue_created test1Pushed) loadedStore))
     = 1%nat
  /\ Store.issues (Store.onmessage (Store.issue_created test2) loadedStore)
     = [test2; test1].
Proof.
  destruct (issue_created_inserts_or_ignores loadedStore test1Pushed)
    as [_ [Hkept Hone]].
  destruct (issue_created_inserts_or_ignores loadedStore test2) as [Hnew _].
  split; [|split].
  - apply Hkept. exists test1. split; [now left|reflexivity].
  - apply Hone. apply le_n.
  - apply Hnew. intros j [<-|[]]. discriminate.
Defined.

(** ** The dependency editor *)

Section AddDependency.

Import IssueSidePanel.

Variable now : string.

(** The handler never consults the selected dependency type: whether it
    reports an error, and which, is the same for every type. *)
Lemma handleAddDependency_type_blind (p : Panel) (t : DependencyType) :
  error (handleAddDependency now (setNewDependencyType p t))
  = error (handleAddDependency now p).
Proof.
  unfold handleAddDependency, issue. simpl.
  destruct (editedIssue p) as [edited|]; [|reflexivity].
  destruct (issueId p) as [key|]; [|reflexivity].
  destruct (String.eqb key ""); [reflexivity|].
  destruct (findById (issues p) key); [|reflexivity].
  destruct (String.eqb (trim (newDependencyId p)) ""); [reflexivity|].
  destruct (existsb _ (existingDeps edited)); [reflexivity|].
  destruct (findById (issues p) (trim (newDependencyId p))); reflexivity.
Qed.

(** What the handler does once its first guard is passed. *)
Lemma handleAddDependency_cases (p : Panel) (edited : PartialIssue) (iss : Issue) :
  editedIssue p = Some edited -> issue p = Some iss ->
  trim (newDependencyId p) <> "" ->
  let target := trim (newDependencyId p) in
  handleAddDependency now p =
  if existsb (fun d => String.eqb (depends_on_id d) target) (existingDeps edited)
  then setError p (Some "Dependency already exists")
  else match findById (issues p) target with
       | None => setError p (Some ("Issue " ++ target ++ " not found"))
       | Some _ =>
           mkPanel (issues p) (issueId p) (createMode p)
             (Some (withDependencies edited
                      (existingDeps edited ++
                       [mkDependency (id iss) target (newDependencyType p) now "system"])))
             "" (newDependencyType p) None
       end.
Proof.
  intros He Hi Ht target. subst target.
  unfold handleAddDependency. cbv zeta. rewrite He, Hi.
  apply String.eqb_neq in Ht. now rewrite Ht.
Qed.

Lemma app_one_neq {A : Type} (l : list A) (x : A) : (l ++ [x])%list <> l.
Proof.
  intros H. apply (f_equal (@List.length A)) in H.
  rewrite length_app in H. simpl in H. lia.
Qed.

(** C6, amended: with the panel open on an issue, [handleAddDependency]
    does nothing at all when the typed target is blank: no edge, no error.
    With a non-blank target it appends the new edge to the draft's
    dependency list if and only if no edge on the draft has the same
    depends_on_id, whatever its type and whatever its issue_id, and the
    target id is the id of an issue of the collection; when either check
    fails an error is reported and the draft is unchanged.  When the edges
    on the draft are the issue's own (their issue_id is the issue's id) the
    duplicate test is the test on the (issue_id, depends_on_id) pair.  The
    collection is never touched. *)
Theorem handleAddDependency_validation (p : Panel) (edited : PartialIssue) (iss : Issue) :
  editedIssue p = Some edited -> issue p = Some iss ->
  let target := trim (newDependencyId p) in
  let newDep := mkDependency (id iss) target (newDependencyType p) now "system" in
  let duplicate :=
    exists d, In d (existingDeps edited) /\ depends_on_id d = target in
  let samePair :=
    exists d, In d (existingDeps edited) /\
              issue_id d = id iss /\ depends_on_id d = target in
  let known := exists j, In j (issues p) /\ id j = target in
  let p' := handleAddDependency now p in
  (target = "" -> p' = p)
  /\ (target <> "" ->
      (draftDependencies p' = (existingDeps edited ++ [newDep])%list <->
       ~ duplicate /\ known)
      /\ (duplicate \/ ~ known ->
          (exists message, error p' = Some message) /\ editedIssue p' = Some edited))
  /\ ((forall d, In d (existingDeps edited) -> issue_id d = id iss) ->
      (duplicate <-> samePair))
  /\ issues p' = issues p.
Proof.
  intros He Hi target newDep duplicate samePair known p'.
  assert (Hdup : existsb (fun d => String.eqb (depends_on_id d) target)
                         (existingDeps edited) = true <-> duplicate).
  { rewrite existsb_exists. unfold duplicate.
    split; intros [d [Hin H]]; exists d.
    - apply String.eqb_eq in H. auto.
    - split; [exact Hin|]. now apply String.eqb_eq. }
  assert (Hknown : findById (issues p) target = None <-> ~ known).
  { rewrite findById_None. unfold known. split.
    - intros H [j [Hin Hid]]. now apply H in Hin.
    - intros H j Hin Hid. apply H. now exists j. }
  split; [|split; [|split]].
  - intros Ht. unfold p', handleAddDependency. cbv zeta. rewrite He, Hi.
    unfold target in Ht. rewrite Ht. reflexivity.
  - intros Ht. unfold p'.
    rewrite (handleAddDependency_cases p edited iss He Hi Ht).
    fold target.
    destruct (existsb _ (existingDeps edited)) eqn:Ed.
    + assert (Hd : duplicate) by now apply Hdup.
      unfold draftDependencies. simpl. rewrite He.
      split; [split|].
      * intros H'. symmetry in H'. now apply app_one_neq in H'.
      * intros [Hnd _]. contradiction.
      * intros _. split; [|reflexivity]. now exists "Dependency already exists".
    + assert (Hnd : ~ duplicate) by (intros H; apply Hdup in H; discriminate).
      destruct (findById (issues p) target) as [j|] eqn:Ef.
      * assert (Hk : known).
        { apply findById_Some in Ef. now exists j. }
        unfold draftDependencies. simpl.
        split; [split|].
        -- intros _. now split.
        -- reflexivity.
        -- intros [Hd|Hnk]; contradiction.
      * assert (Hnk : ~ known) by now apply Hknown.
        unfold draftDependencies. simpl. rewrite He.
        split; [split|].
        -- intros H'. symmetry in H'. now apply app_one_neq in H'.
        -- intros [_ Hk]. contradiction.
        -- intros _. split; [|reflexivity].
           now exists ("Issue " ++ target ++ " not found").
  - intros Hown. unfold duplicate, samePair.
    split; intros [d [Hin H]]; exists d.
    + split; [exact Hin|]. split; [now apply Hown|exact H].
    + split; [exact Hin|]. now destruct H.
  - unfold p', handleAddDependency. cbv zeta. rewrite He, Hi.
    destruct (String.eqb _ ""); [reflexivity|].
    destruct (existsb _ (existingDeps edited)); [reflexivity|].
    destruct (findById (issues p) _); reflexivity.
Qed.

End AddDependency.

(** The panel on [test-2], whose draft has the edge to [test-1]: adding
    [test-3] (typed with a leading blank) appends the edge, adding [test-1]
    again reports an error, and a blank input changes nothing. *)
Lemma handleAddDependency_validation_witness :
  IssueSidePanel.draftDependencies
    (IssueSidePanel.handleAddDependency "now" (panelOnTest2 " test-3" related))
  = [edge "test-2" "test-1" blocks;
     mkDependency "test-2" "test-3" related "now" "system"]
  /\ (exists message,
        IssueSidePanel.error
          (IssueSidePanel.handleAddDependency "now" (panelOnTest2 "test-1" related))
        = Some message)
  /\ IssueSidePanel.handleAddDependency "now" (panelOnTest2 "   " related)
     = panelOnTest2 "   " related.
Proof.
  split; [|split].
  - assert (Hblank : IssueSidePanel.trim " test-3" <> "").
    { vm_compute. discriminate. }
    destruct (handleAddDependency_validation "now" (panelOnTest2 " test-3" related)
                (asPartial test2) test2 eq_refl eq_refl)
      as [_ [Hchecked _]].
    destruct (Hchecked Hblank) as [[_ Happended] _].
    apply Happended. split.
    + intros [d [[<-|[]] Htarget]]. discriminate Htarget.
    + exists test3. split; [right; right; now left|reflexivity].
  - assert (Hblank : IssueSidePanel.trim "test-1" <> "").
    { vm_compute. discriminate. }
    destruct (handleAddDependency_validation "now" (panelOnTest2 "test-1" related)
                (asPartial test2) test2 eq_refl eq_refl)
      as [_ [Hchecked _]].
    destruct (Hchecked Hblank) as [_ Hrejected].
    apply Hrejected. left.
    exists (edge "test-2" "test-1" blocks). split; [now left|reflexivity].
  - destruct (handleAddDependency_validation "now" (panelOnTest2 "   " related)
                (asPartial test2) test2 eq_refl eq_refl)
      as [Hignored _].
    apply Hignored. reflexivity.
Defined.

(** C6, as stated, fails in two ways.  A blank target is the id of no issue,
    so the target check of the claim fails, yet the handler reports no
    error: it returns before either check.  And the handler compares
    depends_on_id alone: on a draft that carries an edge from [test-2] to
    [test-3], adding [test-3] to [test-1] is rejected as a duplicate
    although no edge with the pair (test-1, test-3) exists and [test-3] is
    known. *)
Lemma handleAddDependency_blank_or_foreign_counterexample :
  (IssueSidePanel.editedIssue (panelOnTest2 "   " related) = Some (asPartial test2)
   /\ IssueSidePanel.issue (panelOnTest2 "   " related) = Some test2
   /\ IssueSidePanel.trim "   " = ""
   /\ (forall j, In j mockIssues -> id j <> "")
   /\ IssueSidePanel.error
        (IssueSidePanel.handleAddDependency "now" (panelOnTest2 "   " related))
      = None
   /\ ~ validatesAsStated "now" (panelOnTest2 "   " related) (asPartial test2) test2)
  /\ (IssueSidePanel.editedIssue (panelWithForeignEdge "test-3" related)
      = Some (asPartial misfiled)
      /\ IssueSidePanel.issue (panelWithForeignEdge "test-3" related) = Some misfiled
      /\ In test3 misfiledIssues
      /\ (forall d, In d (IssueSidePanel.existingDeps (asPartial misfiled)) ->
                    issue_id d <> id misfiled)
      /\ IssueSidePanel.handleAddDependency "now" (panelWithForeignEdge "test-3" related)
         = IssueSidePanel.setError (panelWithForeignEdge "test-3" related)
                                   (Some "Dependency already exists")
      /\ ~ validatesAsStated "now" (panelWithForeignEdge "test-3" related)
                             (asPartial misfiled) misfiled).
Proof.
  assert (Hunknown : forall j, In j mockIssues -> id j <> "").
  { intros j [<-|[<-|[<-|[]]]]; discriminate. }
  assert (Hforeign : forall d, In d (IssueSidePanel.existingDeps (asPartial misfiled)) ->
                               issue_id d <> id misfiled).
  { intros d [<-|[]]. discriminate. }
  split.
  - split; [reflexivity|]. split; [reflexivity|]. split; [reflexivity|].
    split; [exact Hunknown|]. split; [reflexivity|].
    intros [_ Hrejected].
    destruct Hrejected as [[message Hmessage] _].
    + right. intros [j [Hin Hid]]. now apply (Hunknown j Hin).
    + discriminate Hmessage.
  - split; [reflexivity|]. split; [reflexivity|].
    split; [right; right; now left|]. split; [exact Hforeign|].
    split; [reflexivity|].
    intros [[_ Happended] _].
    assert (Hfalse : IssueSidePanel.draftDependencies
                       (IssueSidePanel.handleAddDependency "now"
                          (panelWithForeignEdge "test-3" related))
                     = (IssueSidePanel.existingDeps (asPartial misfiled)
                        ++ [mkDependency (id misfiled) "test-3" related "now" "system"])%list).
    { apply Happended. split.
      - intros [d [Hin [Hid _]]]. now apply (Hforeign d Hin).
      - exists test3. split; [right; right; now left|reflexivity]. }
    discriminate Hfalse.
Qed.

(** ** Edges the editor lets through *)

Section SelfEdge.

Import IssueSidePanel.

Variable now : string.

Lemma issue_in_collection (p : Panel) (iss : Issue) :
  issue p = Some iss -> findById (issues p) (id iss) = Some iss /\ id iss <> "".
Proof.
  unfold issue. destruct (issueId p) as [key|]; [|discriminate].
  destruct (String.eqb key "") eqn:E; [discriminate|].
  intros H. destruct (findById_Some _ _ _ H) as [_ Hid].
  apply String.eqb_neq in E. rewrite Hid. now split.
Qed.

(** Typing the panel's own issue id is handled like any other target: the
    issue is in the collection, so unless the draft already has an edge to
    it the self edge is appended. *)
Lemma handleAddDependency_self_edge (p : Panel) (edited : PartialIssue) (iss : Issue) :
  editedIssue p = Some edited -> issue p = Some iss ->
  trim (newDependencyId p) = id iss ->
  (forall d, In d (existingDeps edited) -> depends_on_id d <> id iss) ->
  let p' := handleAddDependency now p in
  error p' = None /\
  draftDependencies p' =
  (existingDeps edited ++
   [mkDependency (id iss) (id iss) (newDependencyType p) now "system"])%list.
Proof.
  intros He Hi Ht Hfresh p'.
  destruct (issue_in_collection p iss Hi) as [Hfound Hne].
  unfold p'. rewrite (handleAddDependency_cases now p edited iss He Hi);
    [|now rewrite Ht].
  rewrite Ht, Hfound.
  replace (existsb _ (existingDeps edited)) with false.
  - split; reflexivity.
  - symmetry. apply existsb_false. intros d Hd.
    apply String.eqb_neq. now apply Hfresh.
Qed.

End SelfEdge.

(** C2 does not hold on the code: the editor has no cycle check.  With
    [test-2] blocking on [test-1], the panel on [test-1] accepts [test-2] as
    a new [blocks] dependency although [test-1] is reachable from [test-2];
    saving hands the draft to the store, whose collection then has the
    [blocks] cycle test-1 -> test-2 -> test-1.  The same edge with type
    [related] is accepted too. *)
Theorem cycle_closing_edge_reaches_the_store :
  let now := "2025-03-03T00:00:00.000Z" in
  let p' := IssueSidePanel.handleAddDependency now (panelOnTest1 "test-2" blocks) in
  let q' := IssueSidePanel.handleAddDependency now (panelOnTest1 "test-2" related) in
  reachable mockIssues "test-2" "test-1"
  /\ IssueSidePanel.error p' = None
  /\ IssueSidePanel.draftDependencies p'
     = [mkDependency "test-1" "test-2" blocks now "system"]
  /\ (exists edited,
        IssueSidePanel.handleSave_updateIssue p' = Some ("test-1", edited) /\
        let st' := Store.updateIssue_optimistic "test-1" edited now
                     (Store.mkStore mockIssues false None) in
        blocksEdge (Store.issues st') "test-1" "test-2" /\
        blocksEdge (Store.issues st') "test-2" "test-1")
  /\ IssueSidePanel.error q' = None
  /\ IssueSidePanel.draftDependencies q'
     = [mkDependency "test-1" "test-2" related now "system"].
Proof.
  cbv zeta. split; [|split; [|split; [|split; [|split]]]]; try reflexivity.
  - apply reachable_step with (b := "test-1"); [|apply reachable_here].
    exists test2, (edge "test-2" "test-1" blocks).
    repeat split; [right|]; now left.
  - eexists. split; [reflexivity|]. split.
    + eexists _, (mkDependency "test-1" "test-2" blocks _ "system").
      split; [now left|]. repeat split. now left.
    + exists test2, (edge "test-2" "test-1" blocks).
      split; [right; now left|]. repeat split. now left.
Qed.

(** C7 does not hold on the code: the editor has no self-dependency check.
    The panel on [test-1] accepts [test-1] itself as a new dependency, and
    saving hands the store an issue that depends on itself. *)
Theorem self_dependency_reaches_the_store :
  let now := "2025-03-03T00:00:00.000Z" in
  let p' := IssueSidePanel.handleAddDependency now (panelOnTest1 "test-1" blocks) in
  IssueSidePanel.error p' = None
  /\ IssueSidePanel.draftDependencies p'
     = [mkDependency "test-1" "test-1" blocks now "system"]
  /\ (exists edited,
        IssueSidePanel.handleSave_updateIssue p' = Some ("test-1", edited) /\
        let st' := Store.updateIssue_optimistic "test-1" edited now
                     (Store.mkStore mockIssues false None) in
        exists i d, In i (Store.issues st') /\ dependencies i = Some [d] /\
                    issue_id d = id i /\ depends_on_id d = id i).
Proof.
  cbv zeta. split; [|split]; try reflexivity.
  eexists. split; [reflexivity|].
  eexists _, _. split; [now left|]. repeat split.
Qed.

(** ** The identifier allocator *)

Section Allocator.

Import IdAllocator.
Local Open Scope Z_scope.

(** *** The regular expression finds the trailing digit run *)

Lemma takeWhile_all {A : Type} (f : A -> bool) (l : list A) :
  forallb f l = true -> takeWhile f l = l.
Proof.
  induction l as [|a l IH]; simpl; [reflexivity|].
  intros H. apply andb_true_iff in H. destruct H as [-> H]. now rewrite IH.
Qed.

Lemma takeWhile_app {A : Type} (f : A -> bool) (l1 l2 : list A) :
  takeWhile f (l1 ++ l2) =
  if forallb f l1 then (l1 ++ takeWhile f l2)%list else takeWhile f l1.
Proof.
  induction l1 as [|a l1 IH]; simpl; [reflexivity|].
  destruct (f a); simpl; [|reflexivity].
  rewrite IH. now destruct (forallb f l1).
Qed.

Lemma forallb_rev {A : Type} (f : A -> bool) (l : list A) :
  forallb f (rev l) = forallb f l.
Proof.
  induction l as [|a l IH]; simpl; [reflexivity|].
  rewrite forallb_app, IH. simpl. rewrite andb_true_r. apply andb_comm.
Qed.

Lemma allDigits_forallb (s : string) :
  allDigits s = forallb isDigit (list_ascii_of_string s).
Proof. induction s as [|c s IH]; simpl; [reflexivity|]. now rewrite IH. Qed.

Lemma trailingDigitRun_all (s : string) :
  allDigits s = true -> trailingDigitRun s = s.
Proof.
  intros H. unfold trailingDigitRun. rewrite allDigits_forallb in H.
  rewrite takeWhile_all by now rewrite forallb_rev.
  rewrite rev_involutive. apply string_of_list_ascii_of_string.
Qed.

Lemma trailingDigitRun_skip (c : ascii) (s : string) :
  allDigits (String c s) = false ->
  trailingDigitRun (String c s) = trailingDigitRun s.
Proof.
  intros H. unfold trailingDigitRun. simpl list_ascii_of_string.
  simpl rev. rewrite takeWhile_app, forallb_rev, <- allDigits_forallb.
  destruct (allDigits s) eqn:E; [|reflexivity].
  simpl in H. rewrite E, andb_true_r in H. simpl. rewrite H, app_nil_r.
  rewrite takeWhile_all; [reflexivity|].
  now rewrite forallb_rev, <- allDigits_forallb.
Qed.

Lemma matchTrailingDigits_run (s : string) :
  matchTrailingDigits s =
  if String.eqb (trailingDigitRun s) "" then None else Some (trailingDigitRun s).
Proof.
  induction s as [|c s IH]; [reflexivity|].
  simpl matchTrailingDigits.
  change (if isDigit c && allDigits s then Some (String c s) else matchTrailingDigits s)
    with (if allDigits (String c s) then Some (String c s) else matchTrailingDigits s).
  destruct (allDigits (String c s)) eqn:E.
  - now rewrite trailingDigitRun_all.
  - now rewrite trailingDigitRun_skip.
Qed.

Lemma trailingDigitRun_digits (s : string) : allDigits (trailingDigitRun s) = true.
Proof.
  induction s as [|c s IH]; [reflexivity|].
  destruct (allDigits (String c s)) eqn:E.
  - now rewrite trailingDigitRun_all.
  - now rewrite trailingDigitRun_skip.
Qed.

(** *** Reading a digit run *)

Lemma digitsValue_numericValue (s : string) (acc : Z) :
  allDigits s = true ->
  digitsValue acc s =
  fold_left (fun a c => 10 * a + (Z.of_nat (nat_of_ascii c) - 48))
            (list_ascii_of_string s) acc.
Proof.
  revert acc. induction s as [|c s IH]; simpl; intros acc H; [reflexivity|].
  apply andb_true_iff in H. destruct H as [-> H]. now apply IH.
Qed.

Lemma digitsValue_nonneg (s : string) (acc : Z) :
  0 <= acc -> 0 <= digitsValue acc s.
Proof.
  revert acc. induction s as [|c s IH]; cbn [digitsValue]; intros acc H; [exact H|].
  destruct (isDigit c) eqn:E; [|exact H].
  apply IH. unfold isDigit in E. apply andb_true_iff in E.
  destruct E as [E _]. apply Nat.leb_le in E. lia.
Qed.

Lemma candidate_nonneg (i : Issue) (v : Z) : candidate i = Some v -> 0 <= v.
Proof.
  unfold candidate. destruct (String.eqb _ ""); [discriminate|].
  intros H. injection H as <-. unfold numericValue.
  rewrite <- digitsValue_numericValue by apply trailingDigitRun_digits.
  now apply digitsValue_nonneg.
Qed.

Lemma maxCandidate_nonneg (issues : list Issue) : 0 <= maxCandidate issues.
Proof.
  induction issues as [|i l IH]; simpl; [lia|].
  destruct (candidate i); lia.
Qed.

(** The number that the [map] callback of the generator computes for an
    issue whose candidate, if any, is below 2^53. *)
Lemma numericId_exact (i : Issue) :
  (forall v, candidate i = Some v -> v <= 2 ^ 53 - 1) ->
  match matchTrailingDigits (id i) with
  | Some digits => parseInt digits
  | None => Finite 0
  end
  = Finite (match candidate i with Some v => v | None => 0 end).
Proof.
  unfold candidate. rewrite matchTrailingDigits_run.
  destruct (String.eqb (trailingDigitRun (id i)) "") eqn:E; [reflexivity|].
  intros Hsafe. specialize (Hsafe _ eq_refl).
  pose proof (trailingDigitRun_digits (id i)) as Hd.
  unfold numericValue in *.
  rewrite <- digitsValue_numericValue in * by exact Hd.
  destruct (trailingDigitRun (id i)) as [|c rest]; [discriminate|].
  unfold parseInt. simpl in Hd. apply andb_true_iff in Hd.
  destruct Hd as [-> _]. unfold roundToDouble.
  replace (digitsValue 0 (String c rest) <? 2 ^ 53) with true; [reflexivity|].
  symmetry. apply Z.ltb_lt. lia.
Qed.

(** *** The maximum *)

Lemma fold_left_max2_Finite (vs : list Z) (a : Z) :
  fold_left max2 (map Finite vs) (Finite a) = Finite (fold_left Z.max vs a).
Proof.
  revert a. induction vs as [|v vs IH]; intros a; simpl; [reflexivity|].
  apply IH.
Qed.

Lemma fold_left_Zmax (vs : list Z) (a : Z) :
  0 <= a -> fold_left Z.max vs a = Z.max a (fold_right Z.max 0 vs).
Proof.
  revert a. induction vs as [|v vs IH]; intros a Ha; simpl; [lia|].
  rewrite IH by lia. lia.
Qed.

Lemma filter_Finite (vs : list Z) :
  filter (fun n => negb (isNaN n)) (map Finite vs) = map Finite vs.
Proof. induction vs as [|v vs IH]; simpl; [reflexivity|]. now rewrite IH. Qed.

Lemma maxCandidate_fold (issues : list Issue) :
  maxCandidate issues = fold_right Z.max 0 (map candidateOrZero issues).
Proof.
  induction issues as [|i l IH]; simpl; [reflexivity|].
  unfold candidateOrZero at 1. rewrite <- IH.
  pose proof (maxCandidate_nonneg l).
  destruct (candidate i); lia.
Qed.

Lemma maxCandidate_bound (issues : list Issue) (bound : Z) :
  0 <= bound ->
  (forall i v, In i issues -> candidate i = Some v -> v <= bound) ->
  maxCandidate issues <= bound.
Proof.
  intros Hb. induction issues as [|i l IH]; simpl; intros H; [exact Hb|].
  assert (maxCandidate l <= bound) by (apply IH; intros; eapply H; eauto).
  destruct (candidate i) as [v|] eqn:E; [|assumption].
  assert (v <= bound) by (eapply H; eauto). lia.
Qed.

Lemma plusOne_exact (m : Z) :
  0 <= m <= 2 ^ 53 - 1 -> plusOne (Finite m) = Finite (m + 1).
Proof.
  intros H. unfold plusOne.
  destruct (Z.eq_dec (m + 1) (2 ^ 53)) as [->|Hne]; [reflexivity|].
  unfold roundToDouble.
  replace (m + 1 <? 2 ^ 53) with true; [reflexivity|].
  symmetry. apply Z.ltb_lt. lia.
Qed.

(** *** Printing in the exact range

    Below 2^53 the digit search of the general conversion can only stop at
    digits that denote the number itself: [toString] prints such a number
    as its decimal expansion. *)

Lemma roundToDouble_small (z : Z) : z < 2 ^ 53 -> roundToDouble z = Finite z.
Proof.
  intros H. unfold roundToDouble.
  replace (z <? 2 ^ 53) with true; [reflexivity|].
  symmetry. now apply Z.ltb_lt.
Qed.

Lemma roundToDouble_large (z : Z) :
  2 ^ 53 <= z ->
  match roundToDouble z with
  | Finite w => 2 ^ 53 <= w
  | Infinity => True
  | NaN => False
  end.
Proof.
  intros H. unfold roundToDouble.
  replace (z <? 2 ^ 53) with false by (symmetry; apply Z.ltb_ge; exact H).
  assert (Hlog : 53 <= Z.log2 z).
  { change 53 with (Z.log2 (2 ^ 53)). now apply Z.log2_le_mono. }
  set (e := Z.log2 z - 52).
  assert (He : 1 <= e) by (unfold e; lia).
  assert (Hpow : 2 ^ 52 * 2 ^ e <= z).
  { rewrite <- Z.pow_add_r by lia. replace (52 + e) with (Z.log2 z) by (unfold e; lia).
    apply Z.log2_spec. lia. }
  assert (Hpe : 2 <= 2 ^ e).
  { change 2 with (2 ^ 1) at 1. apply Z.pow_le_mono_r; lia. }
  assert (Hq : 2 ^ 52 <= z / 2 ^ e).
  { apply Z.div_le_lower_bound; lia. }
  set (q := if z mod 2 ^ e <? 2 ^ (e - 1) then z / 2 ^ e
            else if 2 ^ (e - 1) <? z mod 2 ^ e then z / 2 ^ e + 1
                 else if Z.even (z / 2 ^ e) then z / 2 ^ e else z / 2 ^ e + 1).
  assert (Hq' : 2 ^ 52 <= q).
  { unfold q. repeat match goal with |- context [if ?b then _ else _] => destruct b end; lia. }
  destruct (2 ^ 1024 <=? q * 2 ^ e); [exact I|].
  change (2 ^ 53) with (2 ^ 52 * 2). 
  apply Z.mul_le_mono_nonneg; lia.
Qed.

Lemma readsBackAs_above (v c : Z) :
  v < 2 ^ 53 -> v < c -> readsBackAs v c = false.
Proof.
  intros Hv Hc. unfold readsBackAs.
  destruct (Z_lt_le_dec c (2 ^ 53)) as [Hsmall|Hlarge].
  - rewrite roundToDouble_small by exact Hsmall. apply Z.eqb_neq. lia.
  - pose proof (roundToDouble_large c Hlarge) as H.
    destruct (roundToDouble c) as [w| |]; try reflexivity.
    apply Z.eqb_neq. lia.
Qed.

Lemma shortestDigits_exact (e : nat) (v : Z) :
  0 < v < 2 ^ 53 ->
  0 < fst (shortestDigits e v) /\
  fst (shortestDigits e v) * 10 ^ Z.of_nat (snd (shortestDigits e v)) = v.
Proof.
  intros Hv. induction e as [|e IH]; [simpl; lia|].
  cbn [shortestDigits]. cbv zeta.
  set (p := 10 ^ Z.of_nat (S e)).
  assert (Hp : 0 < p) by (unfold p; apply Z.pow_pos_nonneg; lia).
  pose proof (Z.mul_div_le v p Hp) as Hlo.
  pose proof (Z.mul_succ_div_gt v p Hp) as Hhi.
  replace (readsBackAs v ((v / p + 1) * p)) with false
    by (symmetry; apply readsBackAs_above; lia).
  rewrite andb_false_r.
  destruct ((0 <? v / p) && readsBackAs v (v / p * p)) eqn:E; [|exact IH].
  apply andb_true_iff in E. destruct E as [Epos Eback].
  apply Z.ltb_lt in Epos. unfold readsBackAs in Eback.
  rewrite roundToDouble_small in Eback by lia.
  apply Z.eqb_eq in Eback. cbn [fst snd]. fold p. now split.
Qed.

(** *** Printing *)

Lemma append_empty_r (s : string) : s ++ "" = s.
Proof. induction s as [|c s IH]; simpl; [reflexivity|]. now rewrite IH. Qed.

Lemma append_associative (a b c : string) : (a ++ b) ++ c = a ++ (b ++ c).
Proof. induction a as [|x a IH]; simpl; [reflexivity|]. now rewrite IH. Qed.

Lemma length_append (a b : string) :
  String.length (a ++ b) = (String.length a + String.length b)%nat.
Proof. induction a as [|x a IH]; simpl; [reflexivity|]. now rewrite IH. Qed.

Lemma zeros_snoc (n : nat) : zeros n ++ "0" = zeros (S n).
Proof. induction n as [|n IH]; [reflexivity|]. simpl in *. now rewrite IH. Qed.

Lemma length_zeros (n : nat) : String.length (zeros n) = n.
Proof. induction n as [|n IH]; simpl; [reflexivity|]. now rewrite IH. Qed.

Lemma pow10_succ (n : nat) : 10 ^ Z.of_nat (S n) = 10 * 10 ^ Z.of_nat n.
Proof. rewrite Nat2Z.inj_succ. apply Z.pow_succ_r. lia. Qed.

Lemma decimalDigits_step (f : nat) (v : Z) :
  decimalDigits (S f) v =
  (if v <? 10 then "" else decimalDigits f (v / 10)) ++ String (digitChar (v mod 10)) "".
Proof. reflexivity. Qed.

(** More fuel than needed changes nothing. *)
Lemma decimalDigits_fuel (f1 f2 : nat) (v : Z) :
  0 <= v -> v < 10 ^ Z.of_nat (S f1) -> v < 10 ^ Z.of_nat (S f2) ->
  decimalDigits (S f1) v = decimalDigits (S f2) v.
Proof.
  revert f2 v. induction f1 as [|f1 IH]; intros f2 v H0 H1 H2;
    cbn [decimalDigits]; destruct (v <? 10) eqn:E; try reflexivity.
  - apply Z.ltb_ge in E. change (10 ^ Z.of_nat 1) with 10 in H1. lia.
  - apply Z.ltb_ge in E. rewrite pow10_succ in H1, H2.
    destruct f2 as [|f2].
    + change (10 ^ Z.of_nat 0) with 1 in H2. lia.
    + f_equal. apply IH.
      * apply Z.div_pos; lia.
      * apply Z.div_lt_upper_bound; lia.
      * apply Z.div_lt_upper_bound; lia.
Qed.

Lemma below_pow10_log2 (v : Z) :
  0 <= v -> v < 10 ^ Z.of_nat (S (Z.to_nat (Z.log2 v))).
Proof.
  intros H. rewrite Nat2Z.inj_succ, Z2Nat.id by apply Z.log2_nonneg.
  destruct (Z.eq_dec v 0) as [->|Hne]; [reflexivity|].
  apply Z.lt_le_trans with (2 ^ Z.succ (Z.log2 v)).
  - apply Z.log2_spec. lia.
  - apply Z.pow_le_mono_l. pose proof (Z.log2_nonneg v). lia.
Qed.

Lemma decimal_fuel (f : nat) (v : Z) :
  0 <= v -> v < 10 ^ Z.of_nat (S f) -> decimalDigits (S f) v = decimal v.
Proof.
  intros H0 H1. unfold decimal. apply decimalDigits_fuel; try assumption.
  now apply below_pow10_log2.
Qed.

Lemma decimal_tenfold (s : Z) : 0 < s -> decimal (10 * s) = decimal s ++ "0".
Proof.
  intros Hs. unfold decimal at 1.
  pose proof (below_pow10_log2 (10 * s)) as Hlt.
  destruct (Z.to_nat (Z.log2 (10 * s))) as [|f].
  { change (10 ^ Z.of_nat 1) with 10 in Hlt. lia. }
  rewrite decimalDigits_step.
  replace (10 * s <? 10) with false by (symmetry; apply Z.ltb_ge; lia).
  replace (10 * s / 10) with s by (rewrite Z.mul_comm, Z.div_mul; lia).
  replace ((10 * s) mod 10) with 0 by (rewrite Z.mul_comm, Z.mod_mul; lia).
  rewrite decimal_fuel; [reflexivity|lia|].
  rewrite pow10_succ in Hlt. lia.
Qed.

Lemma decimal_shift (e : nat) (s : Z) :
  0 < s -> decimal (s * 10 ^ Z.of_nat e) = decimal s ++ zeros e.
Proof.
  intros Hs. induction e as [|e IH].
  - simpl zeros. rewrite append_empty_r. f_equal. change (10 ^ Z.of_nat 0) with 1. lia.
  - rewrite pow10_succ.
    replace (s * (10 * 10 ^ Z.of_nat e)) with (10 * (s * 10 ^ Z.of_nat e)) by lia.
    rewrite decimal_tenfold.
    + now rewrite IH, append_associative, zeros_snoc.
    + apply Z.mul_pos_pos; [exact Hs|]. apply Z.pow_pos_nonneg; lia.
Qed.

Lemma length_decimalDigits (f k : nat) (v : Z) :
  0 <= v -> v < 10 ^ Z.of_nat (S k) ->
  (String.length (decimalDigits f v) <= S k)%nat.
Proof.
  revert k v. induction f as [|f IH]; intros k v H0 H1; cbn [decimalDigits].
  - simpl. lia.
  - rewrite length_append. simpl String.length.
    destruct (v <? 10) eqn:E; [simpl; lia|].
    apply Z.ltb_ge in E. rewrite pow10_succ in H1.
    destruct k as [|k].
    + change (10 ^ Z.of_nat 0) with 1 in H1. lia.
    + assert (String.length (decimalDigits f (v / 10)) <= S k)%nat; [|lia].
      apply IH.
      * apply Z.div_pos; lia.
      * apply Z.div_lt_upper_bound; lia.
Qed.

(** Printing and reading are inverse. *)
Lemma digitChar_digit (d : Z) :
  0 <= d < 10 ->
  isDigit (digitChar d) = true /\ Z.of_nat (nat_of_ascii (digitChar d)) - 48 = d.
Proof.
  intros H. unfold digitChar, isDigit.
  rewrite nat_ascii_embedding by lia. split.
  - apply andb_true_iff. split; apply Nat.leb_le; lia.
  - lia.
Qed.

Lemma allDigits_append (a b : string) :
  allDigits (a ++ b) = allDigits a && allDigits b.
Proof.
  induction a as [|c a IH]; cbn [append allDigits]; [reflexivity|].
  now rewrite IH, andb_assoc.
Qed.

Lemma digitsValue_append (a b : string) (acc : Z) :
  allDigits a = true -> digitsValue acc (a ++ b) = digitsValue (digitsValue acc a) b.
Proof.
  revert acc. induction a as [|c a IH]; intros acc H; cbn [append digitsValue];
    [reflexivity|].
  cbn [allDigits] in H. apply andb_true_iff in H. destruct H as [-> H].
  now apply IH.
Qed.

Lemma decimalDigits_read (f : nat) (v : Z) :
  0 <= v -> v < 10 ^ Z.of_nat f ->
  allDigits (decimalDigits f v) = true /\ digitsValue 0 (decimalDigits f v) = v.
Proof.
  revert v. induction f as [|f IH]; intros v H0 H1.
  - change (10 ^ Z.of_nat 0) with 1 in H1. split; [reflexivity|simpl; lia].
  - cbn [decimalDigits].
    destruct (digitChar_digit (v mod 10)) as [Hd Hv];
      [apply Z.mod_pos_bound; lia|].
    assert (Hlast : forall a, allDigits a = true ->
              allDigits (a ++ String (digitChar (v mod 10)) "") = true /\
              digitsValue 0 (a ++ String (digitChar (v mod 10)) "")
              = 10 * digitsValue 0 a + v mod 10).
    { intros a Ha. split.
      - rewrite allDigits_append, Ha. cbn [allDigits]. now rewrite Hd.
      - rewrite digitsValue_append by exact Ha.
        cbn [digitsValue]. now rewrite Hd, Hv. }
    destruct (v <? 10) eqn:E.
    + apply Z.ltb_lt in E. destruct (Hlast "" eq_refl) as [Ha Hr].
      split; [exact Ha|]. rewrite Hr. cbn [digitsValue].
      rewrite Z.mod_small; lia.
    + apply Z.ltb_ge in E. rewrite pow10_succ in H1.
      destruct (IH (v / 10)) as [Ha Hr].
      * apply Z.div_pos; lia.
      * apply Z.div_lt_upper_bound; lia.
      * destruct (Hlast _ Ha) as [Ha' Hr']. split; [exact Ha'|].
        rewrite Hr', Hr. symmetry. apply Z.div_mod. lia.
Qed.

Lemma digitsValue_decimal (v : Z) : 0 <= v -> digitsValue 0 (decimal v) = v.
Proof.
  intros H. apply decimalDigits_read; [exact H|]. now apply below_pow10_log2.
Qed.

(** In the exact range a number prints as its decimal expansion. *)
Lemma toString_exact (v : Z) :
  0 <= v <= 2 ^ 53 -> toString (Finite v) = decimal v.
Proof.
  intros H.
  destruct (Z.eq_dec v 0) as [->|Hne]; [reflexivity|].
  destruct (Z.eq_dec v (2 ^ 53)) as [->|Hne']; [now vm_compute|].
  unfold toString. replace (v =? 0) with false by (symmetry; now apply Z.eqb_neq).
  destruct (shortestDigits_exact (String.length (decimal v)) v) as [Hs Hv]; [lia|].
  destruct (shortestDigits _ v) as [s e]. cbn [fst snd] in Hs, Hv.
  assert (Hprint : decimal v = decimal s ++ zeros e).
  { rewrite <- Hv at 1. now apply decimal_shift. }
  assert (Hlen : (String.length (decimal s) + e <= 21)%nat).
  { rewrite <- (length_zeros e) at 1. rewrite <- length_append, <- Hprint.
    assert (String.length (decimal v) <= 16)%nat; [|lia].
    apply length_decimalDigits; [lia|].
    apply Z.lt_trans with (2 ^ 53); [lia|now vm_compute]. }
  apply Nat.leb_le in Hlen. rewrite Hlen. now symmetry.
Qed.

(** *** The argument limit of [Math.max(...numericIds)] *)

(** The [map] callback never produces [NaN]: a match is a non-empty run of
    digits. *)
Lemma numericId_not_NaN (s : string) :
  isNaN (match matchTrailingDigits s with
         | Some digits => parseInt digits
         | None => Finite 0
         end) = false.
Proof.
  induction s as [|c s IH]; [reflexivity|].
  cbn [matchTrailingDigits]. destruct (allDigits (String c s)) eqn:E; [|exact IH].
  cbn [allDigits] in E. apply andb_true_iff in E. destruct E as [Hc _].
  unfold parseInt. rewrite Hc. unfold roundToDouble.
  destruct (_ <? 2 ^ 53); [reflexivity|].
  cbv zeta. now destruct (2 ^ 1024 <=? _).
Qed.

(** So the filter drops nothing: the array spread into [Math.max] has one
    element for each issue. *)
Lemma numericIds_all (issues : list Issue) :
  let numericId := fun issue => match matchTrailingDigits (id issue) with
                                | Some digits => parseInt digits
                                | None => Finite 0
                                end in
  filter (fun n => negb (isNaN n)) (map numericId issues) = map numericId issues.
Proof.
  cbv zeta. induction issues as [|i l IH]; [reflexivity|].
  cbn [map filter]. now rewrite numericId_not_NaN, IH.
Qed.

(** A collection with more issues than the engine accepts arguments makes
    the generator throw, whatever the ids are. *)
Lemma allocation_beyond_limit (maxArguments : Z) (issues : list Issue) :
  issues <> [] -> maxArguments < Z.of_nat (List.length issues) ->
  generateNextIssueId maxArguments issues = None.
Proof.
  intros Hne Hlen. unfold generateNextIssueId. cbv zeta.
  rewrite numericIds_all, length_map.
  destruct issues as [|i l]; [contradiction|]. cbn [map].
  replace (_ <=? maxArguments) with false; [reflexivity|].
  symmetry. apply Z.leb_gt. exact Hlen.
Qed.

(** The allocation rule in the exact range and within the argument limit. *)
Lemma allocation_in_exact_range (maxArguments : Z) (issues : list Issue) :
  (forall i v, In i issues -> candidate i = Some v -> v <= 2 ^ 53 - 1) ->
  Z.of_nat (List.length issues) <= maxArguments ->
  generateNextIssueId maxArguments issues
  = Some ("BD-" ++ decimal (maxCandidate issues + 1)).
Proof.
  intros Hsafe Hlen. unfold generateNextIssueId. cbv zeta.
  rewrite (map_ext_in _ (fun i => Finite (candidateOrZero i))).
  2:{ intros i Hi. apply numericId_exact. intros v. now apply Hsafe. }
  rewrite <- (map_map candidateOrZero Finite), filter_Finite, !length_map.
  replace (_ <=? maxArguments) with true by (symmetry; now apply Z.leb_le).
  assert (Hmax : match map Finite (map candidateOrZero issues) with
                 | first :: rest => Some (fold_left max2 rest first)
                 | [] => Some (Finite 0)
                 end = Some (Finite (maxCandidate issues))).
  { rewrite maxCandidate_fold.
    destruct issues as [|i l]; [reflexivity|]. cbn [map fold_right].
    rewrite fold_left_max2_Finite, fold_left_Zmax; [reflexivity|].
    unfold candidateOrZero. destruct (candidate i) eqn:E; [|lia].
    now apply candidate_nonneg in E. }
  rewrite Hmax.
  pose proof (maxCandidate_nonneg issues) as H0.
  assert (maxCandidate issues <= 2 ^ 53 - 1) as H1.
  { apply maxCandidate_bound; [|exact Hsafe]. now vm_compute. }
  rewrite plusOne_exact by lia.
  rewrite toString_exact by lia.
  reflexivity.
Qed.

(** C5, amended: when the trailing digit run of every id denotes at most
    2^53 - 1 (the largest integer up to which JavaScript numbers count
    exactly) and the collection has no more issues than the engine accepts
    arguments in one call, the allocator returns "BD-" followed by the
    decimal digits of the maximum candidate plus one, the maximum being
    taken over the whole collection and being 0 when there is no candidate.
    On a larger collection [Math.max(...numericIds)] throws a [RangeError]
    and no identifier is returned. *)
Theorem generateNextIssueId_max_plus_one (maxArguments : Z) (issues : list Issue) :
  (forall i v, In i issues -> candidate i = Some v -> v <= 2 ^ 53 - 1) ->
  (Z.of_nat (List.length issues) <= maxArguments ->
   generateNextIssueId maxArguments issues
   = Some ("BD-" ++ decimal (maxCandidate issues + 1)))
  /\ (0 <= maxArguments < Z.of_nat (List.length issues) ->
      generateNextIssueId maxArguments issues = None).
Proof.
  intros Hsafe. split.
  - now apply allocation_in_exact_range.
  - intros [H0 Hlen]. apply allocation_beyond_limit; [|exact Hlen].
    intros ->. simpl in Hlen. lia.
Qed.

End Allocator.

Ltac candidates_in_range :=
  let i := fresh "i" in let v := fresh "v" in
  let Hin := fresh "Hin" in let Hc := fresh "Hc" in
  intros i v Hin Hc; cbn [withIds map In] in Hin;
  repeat (destruct Hin as [<-|Hin]; [vm_compute in Hc; try discriminate Hc;
                                     injection Hc as <-; now vm_compute|]);
  contradiction.

(** The four collections of the specification, through the theorem, on an
    engine that accepts 65536 arguments; and a collection of 65537 issues
    on that engine. *)
Lemma generateNextIssueId_max_plus_one_witness :
  IdAllocator.generateNextIssueId 65536 (withIds []) = Some "BD-1"
  /\ IdAllocator.generateNextIssueId 65536 (withIds ["BD-1"; "BD-2"; "BD-3"])
     = Some "BD-4"
  /\ IdAllocator.generateNextIssueId 65536
       (withIds ["test-1"; "test-2"; "BD-10"; "test-5"])
     = Some "BD-11"
  /\ IdAllocator.generateNextIssueId 65536
       (withIds ["BD-1760553600806"; "BD-1760553775496"; "BD-5"])
     = Some "BD-1760553775497"
  /\ IdAllocator.generateNextIssueId 65536
       (repeat (fixture "BD-1" open None) (Z.to_nat 65537))
     = None.
Proof.
  split; [|split; [|split; [|split]]].
  - rewrite (proj1 (generateNextIssueId_max_plus_one 65536 (withIds [])
                      ltac:(candidates_in_range)));
      [reflexivity|now vm_compute].
  - rewrite (proj1 (generateNextIssueId_max_plus_one 65536
                      (withIds ["BD-1"; "BD-2"; "BD-3"])
                      ltac:(candidates_in_range)));
      [reflexivity|now vm_compute].
  - rewrite (proj1 (generateNextIssueId_max_plus_one 65536
                      (withIds ["test-1"; "test-2"; "BD-10"; "test-5"])
                      ltac:(candidates_in_range)));
      [reflexivity|now vm_compute].
  - rewrite (proj1 (generateNextIssueId_max_plus_one 65536
                      (withIds ["BD-1760553600806"; "BD-1760553775496"; "BD-5"])
                      ltac:(candidates_in_range)));
      [reflexivity|now vm_compute].
  - apply (generateNextIssueId_max_plus_one 65536).
    + intros i v Hin Hc. apply repeat_spec in Hin. subst i.
      vm_compute in Hc. injection Hc as <-. now vm_compute.
    + rewrite repeat_length, Z2Nat.id; lia.
Defined.

(** C5, as stated, fails beyond 2^53: the digit run 9007199254740993 is read
    as the number 9007199254740992, and adding one gives that number again. *)
Lemma generateNextIssueId_large_id_counterexample :
  let issues := withIds ["BD-9007199254740993"] in
  maxCandidate issues = 9007199254740993%Z
  /\ IdAllocator.generateNextIssueId 65536 issues = Some "BD-9007199254740992"
  /\ "BD-" ++ IdAllocator.decimal (maxCandidate issues + 1) = "BD-9007199254740994"
  /\ IdAllocator.generateNextIssueId 65536 issues
     <> Some ("BD-" ++ IdAllocator.decimal (maxCandidate issues + 1)).
Proof.
  cbv zeta. split; [|split; [|split]]; try (vm_compute; reflexivity).
  vm_compute. discriminate.
Qed.

(** * Further properties of the code *)

(** ** The store: creating *)

(** X1: [createIssue] never alters or removes a record.  A failed request
    (network error, non-ok response, unreadable body) leaves the collection
    as it is, records the error and rejects with it; a successful one puts
    the Backend's record in front when its id is new and changes nothing
    when a record with that id is already there. *)
Theorem createIssue_only_adds (outcome : Store.FetchOutcome) (st : Store.IssueStore) :
  let st' := fst (Store.createIssue outcome st) in
  ((forall d, outcome <> Store.Response true (Store.JsonIssue d)) ->
   Store.issues st' = Store.issues st /\
   exists message, Store.error st' = Some message /\
                   snd (Store.createIssue outcome st) = Store.Rejected message)
  /\ (forall d, outcome = Store.Response true (Store.JsonIssue d) ->
      snd (Store.createIssue outcome st) = Store.Resolved d /\
      ((forall j, In j (Store.issues st) -> id j <> id d) ->
       Store.issues st' = d :: Store.issues st) /\
      ((exists j, In j (Store.issues st) /\ id j = id d) -> st' = st)).
Proof.
  cbv zeta. split.
  - intros Hfail. destruct outcome as [m|[|] [d|m]]; simpl.
    + split; [reflexivity|]. now exists m.
    + now destruct (Hfail d).
    + split; [reflexivity|]. now exists m.
    + split; [reflexivity|]. now exists "Failed to create issue".
    + split; [reflexivity|]. now exists "Failed to create issue".
  - intros d ->. simpl. split; [reflexivity|].
    destruct (existsb _ (Store.issues st)) eqn:E; split.
    + intros H. apply existsb_id_true in E. destruct E as [j [Hin Hid]].
      now apply H in Hin.
    + reflexivity.
    + reflexivity.
    + intros H. apply existsb_id_true in H. congruence.
Qed.

(** X2: the confirmation of a create and the [issue:created] push for the
    same record insert it once, in whichever order they arrive: each of the
    two is without effect after the other, and both orders end in the same
    store. *)
Theorem create_confirm_and_push_commute (st : Store.IssueStore) (d : Issue) :
  let confirm := fun s => fst (Store.createIssue (Store.Response true (Store.JsonIssue d)) s) in
  let push := Store.onmessage (Store.issue_created d) in
  confirm st = push st
  /\ push (confirm st) = confirm st
  /\ confirm (push st) = push st
  /\ countId (id d) (Store.issues (push (confirm st)))
     = Nat.max 1 (countId (id d) (Store.issues st)).
Proof.
  cbv zeta. cbn [Store.onmessage Store.createIssue fst].
  destruct (existsb (fun issue => String.eqb (id issue) (id d)) (Store.issues st)) eqn:E.
  - rewrite E. split; [reflexivity|split; [reflexivity|split; [reflexivity|]]].
    apply countId_pos in E. lia.
  - assert (E' : existsb (fun issue => String.eqb (id issue) (id d))
                   (Store.issues (Store.setIssues st (d :: Store.issues st))) = true).
    { simpl. now rewrite String.eqb_refl. }
    rewrite E'. split; [reflexivity|split; [reflexivity|split; [reflexivity|]]].
    rewrite (countId_zero _ _ E).
    unfold countId. simpl. rewrite String.eqb_refl. simpl.
    fold (countId (id d) (Store.issues st)). now rewrite (countId_zero _ _ E).
Qed.

(** ** The store: [issue:deleted] *)

Lemma countId_filter_other (key other : string) (l : list Issue) :
  other <> key ->
  countId other (filter (fun i => negb (String.eqb (id i) key)) l) = countId other l.
Proof.
  intros Hne. unfold countId. induction l as [|a l IH]; simpl; [reflexivity|].
  destruct (String.eqb (id a) key) eqn:E; simpl.
  - apply String.eqb_eq in E.
    replace (String.eqb (id a) other) with false; [exact IH|].
    symmetry. apply String.eqb_neq. congruence.
  - destruct (String.eqb (id a) other); simpl; now rewrite IH.
Qed.

Lemma filter_all {A : Type} (f : A -> bool) (l : list A) :
  (forall x, In x l -> f x = true) -> filter f l = l.
Proof.
  induction l as [|a l IH]; simpl; intros H; [reflexivity|].
  rewrite (H a (or_introl eq_refl)). f_equal. apply IH. intros x Hx. apply H. now right.
Qed.

(** X3: after an [issue:deleted] event no record carries the event's id,
    the number of records with any other id is unchanged, and handling the
    event again changes nothing. *)
Theorem issue_deleted_removes_exactly (st : Store.IssueStore) (key : string) :
  let handle := Store.onmessage (Store.issue_deleted key) in
  countId key (Store.issues (handle st)) = 0%nat
  /\ (forall other, other <> key ->
      countId other (Store.issues (handle st)) = countId other (Store.issues st))
  /\ handle (handle st) = handle st.
Proof.
  cbv zeta. simpl. split; [|split].
  - apply countId_zero. apply existsb_false. intros i Hi.
    apply filter_In in Hi. destruct Hi as [_ Hi]. now apply negb_true_iff in Hi.
  - intros other Hne. now apply countId_filter_other.
  - unfold Store.setIssues. simpl. f_equal. apply filter_all.
    intros i Hi. apply filter_In in Hi. tauto.
Qed.

(** X4: an [issue:created] event for an id the collection does not know,
    followed by [issue:deleted] for that id, gives back the collection as
    it was. *)
Theorem issue_created_then_deleted (st : Store.IssueStore) (d : Issue) :
  (forall j, In j (Store.issues st) -> id j <> id d) ->
  Store.issues
    (Store.onmessage (Store.issue_deleted (id d))
       (Store.onmessage (Store.issue_created d) st))
  = Store.issues st.
Proof.
  intros Hnew. simpl.
  replace (existsb _ (Store.issues st)) with false.
  - simpl. rewrite String.eqb_refl. simpl. apply filter_all.
    intros j Hj. apply negb_true_iff, String.eqb_neq. now apply Hnew.
  - symmetry. apply existsb_false. intros j Hj. apply String.eqb_neq. now apply Hnew.
Qed.

Lemma issue_created_then_deleted_witness :
  Store.issues
    (Store.onmessage (Store.issue_deleted "test-2")
       (Store.onmessage (Store.issue_created test2) loadedStore))
  = [test1].
Proof.
  apply (issue_created_then_deleted loadedStore test2).
  intros j [<-|[]]. discriminate.
Defined.

(** ** The store: updating and closing *)

Lemma map_unknown_id (id0 : string) (g : Issue -> Issue) (l : list Issue) :
  (forall j, In j l -> id j <> id0) ->
  map (fun i => if String.eqb (id i) id0 then g i else i) l = l.
Proof.
  intros H. induction l as [|a l IH]; simpl; [reflexivity|].
  replace (String.eqb (id a) id0) with false.
  - f_equal. apply IH. intros j Hj. apply H. now right.
  - symmetry. apply String.eqb_neq. apply H. now left.
Qed.

(** X5: updating or closing an id that no record carries is a no-op on the
    collection, however the request ends. *)
Theorem mutation_of_unknown_id_is_noop (st : Store.IssueStore) (id0 : string)
    (updates : PartialIssue) (now : string) (outcome : Store.FetchOutcome) :
  (forall j, In j (Store.issues st) -> id j <> id0) ->
  Store.issues (fst (Store.updateIssue id0 updates now (fun s => s) outcome st))
  = Store.issues st
  /\ Store.issues (fst (Store.deleteIssue id0 (fun s => s) outcome st))
     = Store.issues st.
Proof.
  intros Hnew.
  assert (Hu : Store.updateIssue_optimistic id0 updates now st = st).
  { unfold Store.updateIssue_optimistic, Store.setIssues.
    rewrite map_unknown_id by exact Hnew. now destruct st. }
  assert (Hd : Store.deleteIssue_optimistic id0 st = st).
  { unfold Store.deleteIssue_optimistic, Store.setIssues.
    rewrite map_unknown_id by exact Hnew. now destruct st. }
  unfold Store.updateIssue, Store.deleteIssue. rewrite Hu, Hd.
  split; destruct outcome as [m|[|] [d|m]]; simpl; try reflexivity;
    now apply map_unknown_id.
Qed.

Lemma mutation_of_unknown_id_is_noop_witness :
  Store.issues
    (fst (Store.updateIssue "test-9" renamed "now" (fun s => s)
            (Store.Response true (Store.JsonIssue test1Pushed)) loadedStore))
  = [test1].
Proof.
  apply (mutation_of_unknown_id_is_noop loadedStore "test-9").
  intros j [<-|[]]. discriminate.
Defined.

(** X6: however the request ends, [updateIssue] and [deleteIssue] leave the
    collection with as many records as before: closing never removes one. *)
Theorem mutations_keep_every_record (st : Store.IssueStore) (id0 : string)
    (updates : PartialIssue) (now : string) (outcome : Store.FetchOutcome) :
  List.length (Store.issues (fst (Store.updateIssue id0 updates now (fun s => s) outcome st)))
  = List.length (Store.issues st)
  /\ List.length (Store.issues (fst (Store.deleteIssue id0 (fun s => s) outcome st)))
     = List.length (Store.issues st).
Proof.
  split; destruct outcome as [m|[|] [d|m]]; simpl;
    rewrite ?length_map; reflexivity.
Qed.

(** X7: when the updates do not change the id and the Backend answers with
    the record [u] of that id, the collection ends as the pre-mutation
    collection with [u] in place of every record of that id: the optimistic
    value leaves no trace.  The [issue:updated] push of the same record
    changes nothing more, whether it arrives after the confirmation or
    while the request is in flight. *)
Theorem update_confirm_and_push_converge (st : Store.IssueStore) (id0 : string)
    (updates : PartialIssue) (now : string) (u : Issue) :
  id u = id0 ->
  p_id updates = None \/ p_id updates = Some id0 ->
  let confirmed := Store.Response true (Store.JsonIssue u) in
  let push := Store.onmessage (Store.issue_updated u) in
  let replaced := map (fun i => if String.eqb (id i) id0 then u else i) (Store.issues st) in
  Store.issues (fst (Store.updateIssue id0 updates now (fun s => s) confirmed st))
  = replaced
  /\ Store.issues (push (fst (Store.updateIssue id0 updates now (fun s => s) confirmed st)))
     = replaced
  /\ Store.issues (fst (Store.updateIssue id0 updates now push confirmed st))
     = replaced.
Proof.
  intros Hu Hid confirmed push replaced.
  assert (Hopt : forall i, String.eqb (id i) id0 = true ->
            String.eqb (id (withUpdatedAt (spread i updates) now)) id0 = true).
  { intros i Hi. simpl. destruct Hid as [-> | ->]; simpl; [exact Hi|].
    apply String.eqb_refl. }
  assert (Hfirst : map (fun i => if String.eqb (id i) id0 then u else i)
                     (map (fun i => if String.eqb (id i) id0
                                    then withUpdatedAt (spread i updates) now else i)
                          (Store.issues st)) = replaced).
  { unfold replaced. rewrite map_map. apply map_ext. intros i.
    destruct (String.eqb (id i) id0) eqn:E; [now rewrite Hopt|now rewrite E]. }
  assert (Hagain : map (fun i => if String.eqb (id i) id0 then u else i) replaced
                   = replaced).
  { unfold replaced. rewrite <- Hu. apply map_replace_idempotent. }
  split; [exact Hfirst|]. split.
  - unfold push. cbn [Store.onmessage Store.issues Store.setIssues].
    rewrite Hu. unfold confirmed. cbn. rewrite Hfirst. exact Hagain.
  - unfold push, confirmed. cbn. rewrite Hu, Hfirst. exact Hagain.
Qed.

Lemma update_confirm_and_push_converge_witness :
  Store.issues
    (fst (Store.updateIssue "test-1" renamed "now"
            (Store.onmessage (Store.issue_updated test1Pushed))
            (Store.Response true (Store.JsonIssue test1Pushed)) loadedStore))
  = [test1Pushed].
Proof.
  destruct (update_confirm_and_push_converge loadedStore "test-1" renamed "now"
              test1Pushed eq_refl (or_introl eq_refl)) as [_ [_ H]].
  exact H.
Defined.

(** ** Ready and blocked, together and after closing *)

(** X8: no issue is both ready and blocked, and every open issue of the
    collection is one of the two; an issue that is not open is never
    ready, and a closed one is never blocked. *)
Theorem ready_and_blocked_split_open_issues (issues : list Issue) (i : Issue) :
  (In i (getReadyIssues issues) -> ~ In i (getBlockedIssues issues))
  /\ (In i issues -> status i = open ->
      In i (getReadyIssues issues) \/ In i (getBlockedIssues issues))
  /\ (status i <> open -> ~ In i (getReadyIssues issues))
  /\ (status i = closed -> ~ In i (getBlockedIssues issues)).
Proof.
  rewrite In_getReadyIssues, In_getBlockedIssues, isReady_existsb.
  destruct (existsb (stillBlocking issues) (blockingDeps i)); simpl.
  - split; [|split; [|split]].
    + intros [_ [_ H]]. discriminate H.
    + intros Hin Hopen. right. repeat split; [exact Hin|congruence].
    + intros Hs [_ [Hopen _]]. contradiction.
    + intros Hs [_ [Hne _]]. contradiction.
  - split; [|split; [|split]].
    + intros _ [_ [_ H]]. discriminate H.
    + intros Hin Hopen. left. now repeat split.
    + intros Hs [_ [Hopen _]]. contradiction.
    + intros Hs [_ [Hne _]]. contradiction.
Qed.

Lemma findById_map (f : Issue -> Issue) (l : list Issue) (key : string) :
  (forall i, id (f i) = id i) ->
  findById (map f l) key = option_map f (findById l key).
Proof.
  intros Hf. unfold findById. induction l as [|a l IH]; simpl; [reflexivity|].
  rewrite Hf. destruct (String.eqb (id a) key); [reflexivity|exact IH].
Qed.

(** The optimistic step of [deleteIssue] as a function on issues. *)
Lemma closeById_id (id0 : string) (i : Issue) :
  id (if String.eqb (id i) id0 then withStatus i closed else i) = id i.
Proof. now destruct (String.eqb (id i) id0). Qed.

Lemma stillBlocking_after_close (id0 : string) (st : Store.IssueStore) (d : Dependency) :
  stillBlocking (Store.issues (Store.deleteIssue_optimistic id0 st)) d
  = stillBlocking (Store.issues st) d && negb (String.eqb (depends_on_id d) id0).
Proof.
  unfold stillBlocking. cbn [Store.deleteIssue_optimistic Store.setIssues Store.issues].
  rewrite findById_map by apply closeById_id.
  destruct (findById (Store.issues st) (depends_on_id d)) as [b|] eqn:E; [|reflexivity].
  apply findById_Some in E. destruct E as [_ <-]. simpl.
  destruct (String.eqb (id b) id0); simpl.
  - now rewrite andb_false_r.
  - now rewrite andb_true_r.
Qed.

(** X9: closing the issue [id0] (the optimistic step of [deleteIssue])
    makes ready every other open issue whose dependencies of type [blocks]
    were held up by [id0] alone: each of them that points to an issue of
    the store that is not closed points to [id0].  Dependencies of other
    types may point to any issue.  The closed issue itself is then neither
    ready nor blocked. *)
Theorem closing_the_last_blocker_unblocks (st : Store.IssueStore) (id0 : string)
    (i : Issue) :
  In i (Store.issues st) -> status i = open -> id i <> id0 ->
  (forall d deps b, dependencies i = Some deps -> In d deps -> type d = blocks ->
                    pointsTo (Store.issues st) d b -> status b <> closed ->
                    depends_on_id d = id0) ->
  let after := Store.issues (Store.deleteIssue_optimistic id0 st) in
  In i (getReadyIssues after)
  /\ forall j, In j after -> id j = id0 ->
               ~ In j (getReadyIssues after) /\ ~ In j (getBlockedIssues after).
Proof.
  intros Hin Hopen Hne Honly after. split.
  - apply In_getReadyIssues. split; [|split; [exact Hopen|]].
    + unfold after. cbn. apply in_map_iff. exists i. split; [|exact Hin].
      apply String.eqb_neq in Hne. now rewrite Hne.
    + rewrite isReady_existsb. apply negb_true_iff, existsb_false.
      intros d Hd. unfold after. rewrite stillBlocking_after_close.
      destruct (stillBlocking (Store.issues st) d) eqn:E; [|reflexivity].
      apply stillBlocking_true in E. destruct E as [b [Hp Hs]].
      apply In_blockingDeps in Hd. destruct Hd as [deps [E [Hd Ht]]].
      rewrite (Honly d deps b E Hd Ht Hp), String.eqb_refl; [reflexivity|].
      intros Hc. rewrite Hc in Hs. destruct Hs as [Hs|[Hs|[Hs|[]]]]; discriminate Hs.
  - intros j Hj Hid.
    assert (Hclosed : status j = closed).
    { unfold after in Hj. cbn in Hj. apply in_map_iff in Hj.
      destruct Hj as [k [Hk _]]. subst j.
      destruct (String.eqb (id k) id0) eqn:E; [reflexivity|].
      apply String.eqb_neq in E. contradiction. }
    split.
    + intros H. apply In_getReadyIssues in H. destruct H as [_ [H _]]. congruence.
    + intros H. apply In_getBlockedIssues in H. destruct H as [_ [H _]]. contradiction.
Qed.

(** [test-4] blocks on [test-1] and is related to the open [test-3]:
    blocked before [test-1] is closed, ready afterwards. *)
Lemma closing_the_last_blocker_unblocks_witness :
  In test4 (getBlockedIssues [test1; test3; test4])
  /\ In test4
       (getReadyIssues
          (Store.issues (Store.deleteIssue_optimistic "test-1"
                           (Store.mkStore [test1; test3; test4] false None)))).
Proof.
  split.
  - replace (getBlockedIssues [test1; test3; test4]) with [test4] by reflexivity.
    now left.
  - apply (closing_the_last_blocker_unblocks
             (Store.mkStore [test1; test3; test4] false None) "test-1" test4).
    + right. right. now left.
    + reflexivity.
    + discriminate.
    + intros d deps b E Hd Ht _ _. injection E as <-.
      destruct Hd as [<-|[<-|[]]]; [reflexivity|discriminate Ht].
Defined.

(** ** Loading *)

Section Loading.

Import IssueSidePanel.

Variable JSON_parse : string -> option Issue.

Lemma trimStart_blank (ws : string) : blank ws -> trimStart ws = "".
Proof.
  unfold blank. induction ws as [|c ws IH]; cbn [list_ascii_of_string forallb trimStart];
    [reflexivity|].
  intros H. apply andb_true_iff in H. destruct H as [-> H]. now apply IH.
Qed.

Lemma trimEnd_blank (ws : string) : blank ws -> trimEnd ws = "".
Proof.
  unfold blank. induction ws as [|c ws IH]; cbn [list_ascii_of_string forallb trimEnd];
    [reflexivity|].
  intros H. apply andb_true_iff in H. destruct H as [Hc H].
  now rewrite (IH H), Hc.
Qed.

Lemma trimStart_append (s t : string) :
  trimStart (s ++ t) =
  match trimStart s with
  | EmptyString => trimStart t
  | rest => rest ++ t
  end.
Proof.
  induction s as [|c s IH]; [reflexivity|].
  cbn [append trimStart]. destruct (isWhiteSpace c); [exact IH|reflexivity].
Qed.

Lemma trimEnd_append_blank (s ws : string) :
  blank ws -> trimEnd (s ++ ws) = trimEnd s.
Proof.
  intros H. induction s as [|c s IH]; cbn [append trimEnd].
  - now apply trimEnd_blank.
  - now rewrite IH.
Qed.

Lemma trim_surrounded (before content after : string) :
  blank before -> blank after -> trim (before ++ content ++ after) = trim content.
Proof.
  intros Hb Ha. unfold trim.
  rewrite trimStart_append, (trimStart_blank _ Hb), trimStart_append.
  destruct (trimStart content) as [|c rest].
  - now rewrite (trimStart_blank _ Ha).
  - now apply trimEnd_append_blank.
Qed.

(** X10: [parseJSONL] ignores white space around the file content, a final
    newline included, and a file that is blank holds no issue and does not
    throw. *)
Theorem parseJSONL_ignores_surrounding_space (before content after : string) :
  blank before -> blank after ->
  Jsonl.parseJSONL JSON_parse (before ++ content ++ after)
  = Jsonl.parseJSONL JSON_parse content
  /\ Jsonl.parseJSONL JSON_parse (content ++ String Jsonl.LF "")
     = Jsonl.parseJSONL JSON_parse content
  /\ Jsonl.parseJSONL JSON_parse before = Some [].
Proof.
  intros Hb Ha. unfold Jsonl.parseJSONL. split; [|split].
  - now rewrite trim_surrounded.
  - rewrite <- (trim_surrounded "" content (String Jsonl.LF "")); reflexivity.
  - unfold trim. rewrite (trimStart_blank _ Hb). reflexivity.
Qed.

(** X11: [loadIssues] never rejects, so [fetchIssues] never ends with an
    error: whatever the API request and the JSONL fallback do, the store
    ends with [isLoading] false and no error.  When the API request fails
    and the fallback file cannot be fetched or parsed, the collection is
    replaced by the empty one. *)
Theorem fetchIssues_never_reports_an_error (api : Store.ListOutcome)
    (jsonl : Jsonl.TextOutcome) (st : Store.IssueStore) :
  let fallback := Jsonl.loadIssues JSON_parse jsonl in
  let st' := Store.fetchIssues (fun s => s) api fallback st in
  (exists loaded, fallback = Store.Resolved loaded)
  /\ Store.isLoading st' = false
  /\ Store.error st' = None
  /\ (forall loaded, api = Store.ListResponse true (Store.JsonIssues loaded) ->
      Store.issues st' = loaded)
  /\ ((forall loaded, api <> Store.ListResponse true (Store.JsonIssues loaded)) ->
      (forall content, jsonl = Jsonl.TextResponse true (Jsonl.Text content) ->
                       Jsonl.parseJSONL JSON_parse content = None) ->
      Store.issues st' = []).
Proof.
  cbv zeta.
  assert (Hload : exists loaded, Jsonl.loadIssues JSON_parse jsonl = Store.Resolved loaded).
  { destruct jsonl as [m|[|] [content|m]]; simpl; try (now exists []).
    destruct (Jsonl.parseJSONL JSON_parse content) as [l|]; [now exists l|now exists []]. }
  split; [exact Hload|].
  destruct Hload as [loaded Hload]. rewrite Hload.
  split; [|split; [|split]].
  - destruct api as [m|[|] [l|m]]; reflexivity.
  - destruct api as [m|[|] [l|m]]; reflexivity.
  - intros l ->. reflexivity.
  - intros Hfail Hbad.
    assert (Hempty : loaded = []).
    { destruct jsonl as [m|[|] [content|m]]; simpl in Hload; try congruence.
      rewrite (Hbad content eq_refl) in Hload. congruence. }
    subst loaded.
    destruct api as [m|[|] [l|m]]; try reflexivity. now destruct (Hfail l).
Qed.

End Loading.

Lemma parseJSONL_ignores_surrounding_space_witness :
  Jsonl.parseJSONL (fun _ => Some test1) (String Jsonl.LF " " ++ "{}" ++ String Jsonl.LF "")
  = Jsonl.parseJSONL (fun _ => Some test1) "{}".
Proof.
  apply (parseJSONL_ignores_surrounding_space (fun _ => Some test1)
           (String Jsonl.LF " ") "{}" (String Jsonl.LF "")); reflexivity.
Defined.

(** ** The kanban board *)

Section Kanban.

Import KanbanBoard.

Lemma column_push (groups : Groups) (i : Issue) (s : Status) :
  column (push groups i) s =
  (column groups s ++ if Status_eqb (status i) s then [i] else [])%list.
Proof.
  unfold push. destruct (status i), s; simpl; now rewrite ?app_nil_r.
Qed.

Lemma column_fold (issues : list Issue) (groups : Groups) (s : Status) :
  column (fold_left push issues groups) s =
  (column groups s ++ filter (fun i => Status_eqb (status i) s) issues)%list.
Proof.
  revert groups. induction issues as [|i l IH]; intros groups; simpl.
  - now rewrite app_nil_r.
  - rewrite IH, column_push, <- app_assoc.
    now destruct (Status_eqb (status i) s).
Qed.

Lemma length_filter_status (issues : list Issue) :
  (List.length (filter (fun i => Status_eqb (status i) open) issues)
   + List.length (filter (fun i => Status_eqb (status i) in_progress) issues)
   + List.length (filter (fun i => Status_eqb (status i) blocked) issues)
   + List.length (filter (fun i => Status_eqb (status i) closed) issues)
   = List.length issues)%nat.
Proof.
  induction issues as [|i l IH]; simpl; [reflexivity|].
  destruct (status i); simpl; lia.
Qed.

Lemma column_groupedIssues (issues : list Issue) (s : Status) :
  column (groupedIssues issues) s = filter (fun i => Status_eqb (status i) s) issues.
Proof. unfold groupedIssues. rewrite column_fold. now destruct s. Qed.

Lemma In_column (issues : list Issue) (i : Issue) (s : Status) :
  In i (column (groupedIssues issues) s) <-> In i issues /\ status i = s.
Proof. now rewrite column_groupedIssues, filter_In, Status_eqb_eq. Qed.

(** X12: each column of the board holds exactly the issues of its status,
    in the order of the collection; so every issue is on the board once,
    and the column sizes add up to the size of the collection. *)
Theorem groupedIssues_columns (issues : list Issue) :
  (forall s, column (groupedIssues issues) s
             = filter (fun i => Status_eqb (status i) s) issues)
  /\ (forall i s, In i (column (groupedIssues issues) s) <->
                  In i issues /\ status i = s)
  /\ (List.length (g_open (groupedIssues issues))
      + List.length (g_in_progress (groupedIssues issues))
      + List.length (g_blocked (groupedIssues issues))
      + List.length (g_closed (groupedIssues issues))
      = List.length issues)%nat.
Proof.
  pose proof (column_groupedIssues issues) as H.
  split; [exact H|]. split.
  - intros i s. apply In_column.
  - change (g_open (groupedIssues issues)) with (column (groupedIssues issues) open).
    change (g_in_progress (groupedIssues issues))
      with (column (groupedIssues issues) in_progress).
    change (g_blocked (groupedIssues issues)) with (column (groupedIssues issues) blocked).
    change (g_closed (groupedIssues issues)) with (column (groupedIssues issues) closed).
    rewrite !H. apply length_filter_status.
Qed.

(** X13: when a drop makes [handleDragEnd] call [updateStatus], the dragged
    issue exists and its status differs from the target column's; after the
    optimistic step of that call every record with the dragged id sits in
    the target column and none in another, and all other records stay in
    their columns. *)
Theorem drop_moves_the_card (st : Store.IssueStore) (event : DragEndEvent)
    (id0 : string) (s : Status) (now : string) :
  handleDragEnd (Store.issues st) event = Some (id0, s) ->
  let moved := Store.issues (Store.updateIssue_optimistic id0 (Store.statusOnly s) now st) in
  (exists i, In i (Store.issues st) /\ id i = id0 /\ status i <> s)
  /\ (exists j, In j (column (groupedIssues moved) s) /\ id j = id0)
  /\ (forall j s', In j (column (groupedIssues moved) s') -> id j = id0 -> s' = s)
  /\ (forall j s', id j <> id0 ->
        (In j (column (groupedIssues moved) s') <->
         In j (column (groupedIssues (Store.issues st)) s'))).
Proof.
  intros H moved. unfold handleDragEnd in H.
  destruct (over_id event) as [newStatus|]; [|discriminate].
  destruct (findById (Store.issues st) (active_id event)) as [i|] eqn:E; [|discriminate].
  destruct (Status_eqb (status i) newStatus) eqn:Es; [discriminate|].
  injection H as Hid Hs. subst newStatus.
  apply findById_Some in E. destruct E as [Hin Hi]. rewrite Hid in Hi.
  assert (Hmoved : forall k, id k = id0 ->
            id (withUpdatedAt (spread k (Store.statusOnly s)) now) = id0 /\
            status (withUpdatedAt (spread k (Store.statusOnly s)) now) = s).
  { intros k Hk. now split. }
  assert (Hafter : forall j, In j moved <->
            exists k, In k (Store.issues st) /\
              j = (if String.eqb (id k) id0
                   then withUpdatedAt (spread k (Store.statusOnly s)) now else k)).
  { intros j. unfold moved. cbn. rewrite in_map_iff.
    split; intros [k [H1 H2]]; exists k; split; auto. }
  pose proof (In_column moved) as Hcol.
  pose proof (In_column (Store.issues st)) as Hcol0.
  split; [|split; [|split]].
  - exists i. repeat split; try assumption.
    intros Heq. apply Status_eqb_eq in Heq. congruence.
  - exists (withUpdatedAt (spread i (Store.statusOnly s)) now).
    split; [|reflexivity || exact Hi]. apply Hcol. split; [|reflexivity].
    apply Hafter. exists i. split; [exact Hin|].
    apply String.eqb_eq in Hi. now rewrite Hi.
  - intros j s' Hj Hjid. apply Hcol in Hj. destruct Hj as [Hj <-].
    apply Hafter in Hj. destruct Hj as [k [_ ->]].
    destruct (String.eqb (id k) id0) eqn:Ek; [reflexivity|].
    apply String.eqb_neq in Ek. contradiction.
  - intros j s' Hne. rewrite Hcol, Hcol0, Hafter. split.
    + intros [[k [Hk ->]] Hst].
      destruct (String.eqb (id k) id0) eqn:Ek.
      * exfalso. apply Hne. simpl. now apply String.eqb_eq.
      * now split.
    + intros [Hj Hst]. split; [|exact Hst]. exists j. split; [exact Hj|].
      apply String.eqb_neq in Hne. now rewrite Hne.
Qed.

End Kanban.

Lemma drop_moves_the_card_witness :
  exists j, In j (KanbanBoard.column
                    (KanbanBoard.groupedIssues
                       (Store.issues
                          (Store.updateIssue_optimistic "test-1"
                             (Store.statusOnly in_progress) "now"
                             (Store.mkStore mockIssues false None))))
                    in_progress)
            /\ id j = "test-1".
Proof.
  destruct (drop_moves_the_card (Store.mkStore mockIssues false None)
              (KanbanBoard.mkDragEnd "test-1" (Some in_progress))
              "test-1" in_progress "now" eq_refl) as [_ [H _]].
  exact H.
Defined.

(** ** The dependency editor: removing *)

Section RemoveDependency.

Import IssueSidePanel.

Variable now : string.

Lemma filter_filter_same {A : Type} (f : A -> bool) (l : list A) :
  filter f (filter f l) = filter f l.
Proof.
  apply filter_all. intros x Hx. apply filter_In in Hx. tauto.
Qed.

(** X14: [handleRemoveDependency] removes from the draft every edge to the
    given id and nothing else, keeping the order of the others; removing
    again changes nothing, and the collection and the error are never
    touched. *)
Theorem handleRemoveDependency_removes_exactly (p : Panel) (key : string) :
  let p' := handleRemoveDependency key p in
  draftDependencies p'
  = filter (fun d => negb (String.eqb (depends_on_id d) key)) (draftDependencies p)
  /\ (forall d, In d (draftDependencies p') <->
                In d (draftDependencies p) /\ depends_on_id d <> key)
  /\ handleRemoveDependency key p' = p'
  /\ issues p' = issues p /\ error p' = error p.
Proof.
  cbv zeta.
  assert (H : draftDependencies (handleRemoveDependency key p)
              = filter (fun d => negb (String.eqb (depends_on_id d) key))
                       (draftDependencies p)).
  { unfold handleRemoveDependency, draftDependencies.
    destruct (editedIssue p) eqn:E; [reflexivity|now rewrite E]. }
  split; [exact H|]. split; [|split].
  - intros d. rewrite H, filter_In, negb_true_iff, String.eqb_neq. reflexivity.
  - unfold handleRemoveDependency. destruct (editedIssue p) as [edited|] eqn:E.
    + cbn. unfold existingDeps at 1. cbn. now rewrite filter_filter_same.
    + now rewrite E.
  - unfold handleRemoveDependency. destruct (editedIssue p); split; reflexivity.
Qed.

(** X15: an accepted [handleAddDependency] followed by
    [handleRemoveDependency] of the same target gives back the draft's
    dependency list as it was. *)
Theorem add_then_remove_restores_draft (p : Panel) (edited : PartialIssue) (iss : Issue) :
  editedIssue p = Some edited -> issue p = Some iss ->
  trim (newDependencyId p) <> "" ->
  (forall d, In d (existingDeps edited) -> depends_on_id d <> trim (newDependencyId p)) ->
  (exists j, In j (issues p) /\ id j = trim (newDependencyId p)) ->
  draftDependencies
    (handleRemoveDependency (trim (newDependencyId p)) (handleAddDependency now p))
  = existingDeps edited.
Proof.
  intros He Hi Ht Hfresh [j [Hj Hid]].
  rewrite (handleAddDependency_cases now p edited iss He Hi Ht). cbv zeta.
  replace (existsb _ (existingDeps edited)) with false.
  2:{ symmetry. apply existsb_false. intros d Hd. apply String.eqb_neq. now apply Hfresh. }
  destruct (findById (issues p) (trim (newDependencyId p))) eqn:Ef.
  2:{ exfalso. apply (proj1 (findById_None _ _) Ef j Hj Hid). }
  unfold handleRemoveDependency, draftDependencies. cbn.
  unfold existingDeps at 1. cbn.
  rewrite filter_app. cbn. rewrite String.eqb_refl. cbn. rewrite app_nil_r.
  apply filter_all. intros d Hd. apply negb_true_iff, String.eqb_neq. now apply Hfresh.
Qed.


End RemoveDependency.

Lemma add_then_remove_restores_draft_witness :
  IssueSidePanel.draftDependencies
    (IssueSidePanel.handleRemoveDependency "test-3"
       (IssueSidePanel.handleAddDependency "now" (panelOnTest2 "test-3 " blocks)))
  = [edge "test-2" "test-1" blocks].
Proof.
  apply (add_then_remove_restores_draft "now" (panelOnTest2 "test-3 " blocks)
           (asPartial test2) test2 eq_refl eq_refl).
  - vm_compute. discriminate.
  - intros d [<-|[]]. vm_compute. discriminate.
  - exists test3. split; [right; right; now left|reflexivity].
Defined.


(** ** Dependents *)

(** X17: once a draft carrying an edge to [key] is handed to [updateIssue]
    for an issue of the collection (and does not change its id), the panel
    opened on the issue [key] lists that issue among its dependents, right
    after the optimistic step. *)
Theorem saved_edge_shows_as_dependent (st : Store.IssueStore) (id0 : string)
    (updates : PartialIssue) (now : string) (deps : list Dependency)
    (d : Dependency) (q : IssueSidePanel.Panel) (t : Issue) :
  p_dependencies updates = Some (Some deps) -> In d deps ->
  p_id updates = None \/ p_id updates = Some id0 ->
  (exists i, In i (Store.issues st) /\ id i = id0) ->
  IssueSidePanel.issues q
  = Store.issues (Store.updateIssue_optimistic id0 updates now st) ->
  IssueSidePanel.createMode q = false ->
  IssueSidePanel.issue q = Some t -> id t = depends_on_id d ->
  exists j, In j (IssueSidePanel.dependents q) /\ id j = id0 /\
            dependencies j = Some deps.
Proof.
  intros Hdeps Hd Hid [i [Hi Hi0]] Hq Hmode Ht Hkey.
  exists (withUpdatedAt (spread i updates) now).
  unfold IssueSidePanel.dependents. rewrite Hmode, Ht, Hq.
  split; [|split].
  - apply filter_In. split.
    + cbn. apply in_map_iff. exists i. split; [|exact Hi].
      apply String.eqb_eq in Hi0. now rewrite Hi0.
    + unfold IssueSidePanel.dependsOn. cbn. rewrite Hdeps. cbn.
      apply existsb_exists. exists d. split; [exact Hd|].
      apply String.eqb_eq. now symmetry.
  - cbn. destruct Hid as [-> | ->]; [exact Hi0|reflexivity].
  - cbn. now rewrite Hdeps.
Qed.

Lemma saved_edge_shows_as_dependent_witness :
  exists j, In j (IssueSidePanel.dependents
                    (IssueSidePanel.mkPanel
                       (Store.issues
                          (Store.updateIssue_optimistic "test-3"
                             (withDependencies (asPartial test3) [edge "test-3" "test-1" related])
                             "now" (Store.mkStore mockIssues false None)))
                       (Some "test-1") false None "" blocks None))
            /\ id j = "test-3"
            /\ dependencies j = Some [edge "test-3" "test-1" related].
Proof.
  apply (saved_edge_shows_as_dependent (Store.mkStore mockIssues false None) "test-3"
           (withDependencies (asPartial test3) [edge "test-3" "test-1" related])
           "now" [edge "test-3" "test-1" related] (edge "test-3" "test-1" related)
           _ test1).
  - reflexivity.
  - now left.
  - now right.
  - exists test3. split; [right; right; now left|reflexivity].
  - reflexivity.
  - reflexivity.
  - reflexivity.
  - reflexivity.
Defined.

(** ** The identifier allocator: fresh and successive identifiers *)

Section FreshIds.

Import IdAllocator.
Local Open Scope Z_scope.

Lemma list_ascii_of_string_append (a b : string) :
  list_ascii_of_string (a ++ b)
  = (list_ascii_of_string a ++ list_ascii_of_string b)%list.
Proof. induction a as [|c a IH]; simpl; [reflexivity|]. now rewrite IH. Qed.

Lemma decimal_digits (v : Z) :
  0 <= v -> allDigits (decimal v) = true /\ decimal v <> "" /\ numericValue (decimal v) = v.
Proof.
  intros H.
  destruct (decimalDigits_read (S (Z.to_nat (Z.log2 v))) v H (below_pow10_log2 v H))
    as [Hall Hval].
  split; [exact Hall|]. split.
  - unfold decimal. rewrite decimalDigits_step.
    destruct (if v <? 10 then "" else _); discriminate.
  - unfold numericValue. rewrite <- digitsValue_numericValue by exact Hall. exact Hval.
Qed.

Lemma trailingDigitRun_prefixed (digits : string) :
  allDigits digits = true -> trailingDigitRun ("BD-" ++ digits) = digits.
Proof.
  intros H. unfold trailingDigitRun.
  rewrite list_ascii_of_string_append, rev_app_distr, takeWhile_app.
  rewrite forallb_rev, <- allDigits_forallb, H.
  cbn [list_ascii_of_string rev app takeWhile].
  replace (isDigit "-") with false by reflexivity.
  rewrite app_nil_r, rev_involutive. apply string_of_list_ascii_of_string.
Qed.

Lemma candidate_of_allocated (i : Issue) (v : Z) :
  0 <= v -> id i = "BD-" ++ decimal v -> candidate i = Some v.
Proof.
  intros Hv Hid. destruct (decimal_digits v Hv) as [Hall [Hne Hval]].
  unfold candidate. rewrite Hid, trailingDigitRun_prefixed by exact Hall.
  apply String.eqb_neq in Hne. now rewrite Hne, Hval.
Qed.

Lemma candidate_le_max (issues : list Issue) (i : Issue) (v : Z) :
  In i issues -> candidate i = Some v -> v <= maxCandidate issues.
Proof.
  induction issues as [|a l IH]; simpl; [contradiction|].
  intros [->|Hin] Hc.
  - rewrite Hc. lia.
  - specialize (IH Hin Hc). destruct (candidate a); lia.
Qed.

(** X18: in the exact range the allocator never returns an identifier that
    is in use: whenever it returns an id (it returns none when the
    collection exceeds the engine's argument limit), that id differs from
    the id of every issue of the collection. *)
Theorem generateNextIssueId_is_fresh (maxArguments : Z) (issues : list Issue) :
  (forall i v, In i issues -> candidate i = Some v -> v <= 2 ^ 53 - 1) ->
  forall i, In i issues ->
  generateNextIssueId maxArguments issues <> Some (id i).
Proof.
  intros Hsafe i Hin Hid.
  destruct (Z_le_gt_dec (Z.of_nat (List.length issues)) maxArguments) as [Hlen|Hlen].
  - rewrite allocation_in_exact_range in Hid by assumption.
    injection Hid as Hid. symmetry in Hid.
    pose proof (maxCandidate_nonneg issues) as H0.
    assert (Hc : candidate i = Some (maxCandidate issues + 1))
      by (apply candidate_of_allocated; [lia|exact Hid]).
    pose proof (candidate_le_max issues i _ Hin Hc). lia.
  - rewrite allocation_beyond_limit in Hid; [discriminate Hid| |lia].
    intros ->. contradiction.
Qed.

(** X19: allocating, storing an issue under the allocated id and allocating
    again gives the next number: the sequence continues without gap or
    repetition while it stays in the exact range and the collection, with
    the new issue, stays within the engine's argument limit. *)
Theorem generateNextIssueId_continues (maxArguments : Z) (issues : list Issue)
    (created : Issue) :
  (forall i v, In i issues -> candidate i = Some v -> v <= 2 ^ 53 - 1) ->
  maxCandidate issues + 1 <= 2 ^ 53 - 1 ->
  Z.of_nat (List.length (created :: issues)) <= maxArguments ->
  generateNextIssueId maxArguments issues = Some (id created) ->
  generateNextIssueId maxArguments (created :: issues)
  = Some ("BD-" ++ decimal (maxCandidate issues + 2)).
Proof.
  intros Hsafe Hroom Hlen Hid.
  rewrite allocation_in_exact_range in Hid;
    [|exact Hsafe|cbn [List.length] in Hlen; lia].
  injection Hid as Hid. symmetry in Hid.
  pose proof (maxCandidate_nonneg issues) as H0.
  assert (Hc : candidate created = Some (maxCandidate issues + 1))
    by (apply candidate_of_allocated; [lia|exact Hid]).
  rewrite allocation_in_exact_range.
  - cbn [maxCandidate fold_right]. fold (maxCandidate issues). rewrite Hc.
    do 3 f_equal. lia.
  - intros i v [<-|Hin] Hv; [|now apply (Hsafe i)].
    rewrite Hc in Hv. injection Hv as <-. exact Hroom.
  - exact Hlen.
Qed.

(** X20: reading back what was printed gives the number again: for every
    integer [0 <= v < 2^53], [parseInt] of the text that a template literal
    prints for [v] is [v]. *)
Theorem parseInt_toString (v : Z) :
  0 <= v < 2 ^ 53 -> parseInt (toString (Finite v)) = Finite v.
Proof.
  intros H. rewrite toString_exact by lia.
  destruct (decimal_digits v) as [Hall [Hne _]]; [lia|].
  pose proof (digitsValue_decimal v) as Hval.
  destruct (decimal v) as [|c rest]; [contradiction|].
  unfold parseInt. cbn [allDigits] in Hall. apply andb_true_iff in Hall.
  destruct Hall as [-> _]. rewrite Hval by lia. apply roundToDouble_small. lia.
Qed.

(** X21: the regular expression [/(\d+)$/] finds the longest suffix made of
    digits.  A match is a non-empty run of digits that ends the string and
    is not preceded by a digit; there is no match exactly when the string
    is empty or ends with a character that is not a digit. *)
Theorem matchTrailingDigits_longest_suffix (s : string) :
  match matchTrailingDigits s with
  | Some m =>
      m <> "" /\ allDigits m = true /\
      exists pre, s = pre ++ m /\
                  forall pre' c, pre = pre' ++ String c "" -> isDigit c = false
  | None => forall pre c, s = pre ++ String c "" -> isDigit c = false
  end.
Proof.
  induction s as [|c s IH].
  - simpl. intros [|x pre] c H; discriminate H.
  - cbn [matchTrailingDigits].
    destruct (allDigits (String c s)) eqn:E.
    + split; [discriminate|]. split; [exact E|].
      exists "". split; [reflexivity|].
      intros [|x pre'] c' H; discriminate H.
    + destruct (matchTrailingDigits s) as [m|].
      * destruct IH as [Hne [Hall [pre [Hs Hpre]]]].
        split; [exact Hne|]. split; [exact Hall|].
        exists (String c pre). split; [simpl; now rewrite Hs|].
        intros [|x pre'] c' H; simpl in H; injection H as Hc Hrest.
        -- subst c' pre. simpl in Hs. subst s.
           cbn [allDigits] in E. rewrite Hall, andb_true_r in E. exact E.
        -- now apply (Hpre pre' c').
      * intros [|x pre] c' H; simpl in H; injection H as Hc Hrest.
        -- subst c' s. cbn [allDigits] in E. now rewrite andb_true_r in E.
        -- now apply (IH pre c').
Qed.

End FreshIds.

Lemma generateNextIssueId_is_fresh_witness :
  IdAllocator.generateNextIssueId 65536 (withIds ["test-1"; "BD-10"])
  <> Some (id (fixture "BD-10" open None)).
Proof.
  apply (generateNextIssueId_is_fresh 65536 (withIds ["test-1"; "BD-10"])).
  - candidates_in_range.
  - right. now left.
Defined.

Lemma generateNextIssueId_continues_witness :
  IdAllocator.generateNextIssueId 65536
    (fixture "BD-11" open None :: withIds ["test-1"; "BD-10"])
  = Some "BD-12".
Proof.
  rewrite (generateNextIssueId_continues 65536 (withIds ["test-1"; "BD-10"])
             (fixture "BD-11" open None)).
  - reflexivity.
  - candidates_in_range.
  - now vm_compute.
  - now vm_compute.
  - reflexivity.
Defined.

Lemma parseInt_toString_witness :
  IdAllocator.parseInt (IdAllocator.toString (IdAllocator.Finite 1760553775497))
  = IdAllocator.Finite 1760553775497.
Proof.
  apply parseInt_toString. split; now vm_compute.
Defined.

(** ** The graph layout *)

(** X22: the initial grid of the dependency graph gives different issues
    different positions, five to a row: no two nodes start on top of each
    other, and every node lies in one of the five columns. *)
Theorem graph_positions_are_distinct (i j : nat) :
  (DependencyGraph.position i = DependencyGraph.position j <-> i = j)
  /\ (0 <= fst (DependencyGraph.position i) <= 1000)%Z
  /\ (snd (DependencyGraph.position i) = 150 * Z.of_nat (i / 5))%Z.
Proof.
  assert (Hinj : forall a b c d : nat,
            (Z.of_nat a * 250, Z.of_nat b * 150)%Z = (Z.of_nat c * 250, Z.of_nat d * 150)%Z ->
            a = c /\ b = d).
  { intros a b c d Heq. injection Heq as Hx Hy. lia. }
  unfold DependencyGraph.position. cbn [fst snd].
  pose proof (Nat.mod_upper_bound i 5) as Hbound. split; [split|split].
  - intros Heq. apply Hinj in Heq. destruct Heq as [Hx Hy].
    rewrite (Nat.div_mod_eq i 5), (Nat.div_mod_eq j 5). now rewrite Hx, Hy.
  - now intros ->.
  - lia.
  - lia.
Qed.

(** ** From the editor to the command line *)

Section SavedCommand.

Import IssueSidePanel.

Lemma savedCommand_dependencies (p : Panel) (edited : PartialIssue)
    (deps : list Dependency) (typed : string) (t : DependencyType) (e : option string) :
  editedIssue p = Some edited ->
  savedCommand (mkPanel (issues p) (issueId p) (createMode p)
                        (Some (withDependencies edited deps)) typed t e)
  = savedCommand p.
Proof.
  intros He. unfold savedCommand, handleSave_updateIssue, issue.
  cbn [editedIssue createMode issueId issues]. rewrite He.
  change (p_title (withDependencies edited deps)) with (p_title edited).
  destruct (p_title edited) as [text|]; [|reflexivity].
  destruct (String.eqb (trim text) ""); [reflexivity|].
  destruct (createMode p); [reflexivity|].
  destruct (issueId p) as [key|]; [|reflexivity].
  destruct (String.eqb key ""); [reflexivity|].
  destruct (findById (issues p) key); reflexivity.
Qed.

Lemma savedCommand_setError (p : Panel) (e : option string) :
  savedCommand (setError p e) = savedCommand p.
Proof. reflexivity. Qed.

(** X23: the dependency editor has no effect on what is persisted: the [bd]
    command that saving the panel runs is the same before and after
    [handleAddDependency] and before and after [handleRemoveDependency],
    whatever they did to the draft. *)
Theorem dependency_edits_never_reach_the_cli (now key : string) (p : Panel) :
  savedCommand (handleAddDependency now p) = savedCommand p
  /\ savedCommand (handleRemoveDependency key p) = savedCommand p.
Proof.
  split.
  - unfold handleAddDependency.
    destruct (editedIssue p) as [edited|] eqn:He; [|reflexivity].
    destruct (issue p) as [iss|]; [|reflexivity].
    destruct (String.eqb (trim (newDependencyId p)) ""); [reflexivity|].
    destruct (existsb _ (existingDeps edited)); [apply savedCommand_setError|].
    destruct (findById (issues p) (trim (newDependencyId p)));
      [|apply savedCommand_setError].
    now apply savedCommand_dependencies.
  - unfold handleRemoveDependency.
    destruct (editedIssue p) as [edited|] eqn:He; [|reflexivity].
    now apply savedCommand_dependencies.
Qed.

End SavedCommand.

(** X24: [PATCH] cannot clear a text field and cannot tell an empty value
    from a missing one: a body whose title, assignee, design, acceptance
    criteria, external reference and notes are each missing or empty runs
    the same command as the body without them.  A priority is passed
    whenever it is present, 0 included. *)
Theorem patch_drops_empty_values (id0 : string) (body : PartialIssue) (n : Z) :
  (forall v, p_title body = Some v -> v = "") ->
  (forall v, Server.bodyKey (p_assignee body) = Some v -> v = "") ->
  (forall v, Server.bodyKey (p_design body) = Some v -> v = "") ->
  (forall v, Server.bodyKey (p_acceptance_criteria body) = Some v -> v = "") ->
  (forall v, Server.bodyKey (p_external_ref body) = Some v -> v = "") ->
  (forall v, Server.bodyKey (p_notes body) = Some v -> v = "") ->
  p_status body = None -> p_priority body = Some n ->
  Server.patchCommand id0 body
  = ["update"; id0; "--priority"; Server.numberText n; "--json"].
Proof.
  intros Ht Ha Hd Hc He Hn Hs Hp.
  assert (Hdrop : forall flag value, (forall v, value = Some v -> v = "") ->
                                     Server.pushIfTruthy flag value = []).
  { intros flag [v|] H; [|reflexivity]. now rewrite (H v eq_refl). }
  unfold Server.patchCommand, Server.execBd_args, Server.updateIssue_args,
    Server.patchOptions. cbn [Server.id Server.title Server.status Server.priority
    Server.assignee Server.design Server.acceptanceCriteria Server.externalRef
    Server.notes].
  rewrite Hs, Hp. cbn [option_map Server.pushIfTruthy].
  rewrite !Hdrop by assumption. reflexivity.
Qed.

Lemma patch_drops_empty_values_witness :
  Server.patchCommand "BD-7"
    (mkPartial None (Some "") None None None None None (Some 0%Z) None
               (Some (Some "")) None None None None None None None None)
  = ["update"; "BD-7"; "--priority"; "0"; "--json"].
Proof.
  apply (patch_drops_empty_values "BD-7" _ 0%Z); try reflexivity;
    cbn; intros v H; congruence.
Defined.
